(** * ukg: the scoped statement builder (KStmt.py, ukg.py)

    A shallow embedding of the statement builder of the repository:
    the class [KStmt] of [python/KStmt.py] and the control-flow
    constructs of [python/ukg.py].  Python objects live in a heap indexed
    by references, so that the closures of the constructs and the
    [_current] stack share the blocks they mutate; every operation is a
    function of the world that returns a value or raises, and the world
    survives a raise, as in Python. *)

From stdpp Require Import gmap strings list pretty.
From Stdlib Require Import ZArith Lia.

Local Open Scope Z_scope.
Set Warnings "-register-all,-clear-no-such-hyp".

(** ** Values of the host language and IR nodes *)

(** Data types.  [util.get_tvm_dtype] belongs to an external module; it is
    kept as an uninterpreted symbol applied to its arguments. *)
Inductive dtype :=
| DType (s : string)
| get_tvm_dtype (declared : option dtype) (ctx : option string).

(** Expressions of [tvm.tir.expr], as far as the constructs build them.  A
    Python [int] passed as a bound is [IntImm]. *)
Inductive expr :=
| IntImm (v : Z)
| Var (name : string) (dt : string)
| Sub (a b : expr)
| GT (a b : expr)
| Load (buf : string) (index : expr)
| Cast (dt : dtype) (v : expr)
| UIntImm (dt : string) (v : Z)
| StringImm (s : string).

(** [_stmt.ForKind] *)
Inductive ForKind := SERIAL | PARALLEL | VECTORIZED | UNROLLED.

(** [tvm_api.decl_buffer(shape, dtype, name)] *)
Record buffer := decl_buffer {
  buf_shape : list Z;
  buf_dtype : option dtype;
  buf_name : string
}.

(** Python objects that reach a statement list or a node field.  The node
    constructors of [tvm.tir.stmt] and [python/stmt.py] are free
    constructors: the node factory is external and keeps what it is given.
    [KStmtRef] is a [KStmt] instance (neither callable nor a [Stmt]);
    [Tensor], [OpOutput], [PyTuple] and [Opaque] are the other values the
    source can hand around. *)
Inductive pyobj :=
| Evaluate (value : expr)
| Block (first rest : pyobj)
| IfThenElse (condition : expr) (then_case : pyobj) (else_case : option pyobj)
| For (loop_var begin extent : expr) (kind : ForKind) (body : pyobj)
| While (condition : expr) (body : pyobj)
| Break
| Return (value : expr)
| AttrStmt (node : buffer) (attr_key : string) (value : expr) (body : pyobj)
| KernelDef (args : list expr) (arg_shapes : list (list Z))
            (arg_types : list dtype) (arg_buffers : list string)
            (body : pyobj) (ret_void : expr) (ret_type : dtype)
            (name : string) (attributes : list (list expr))
| KStmtRef (r : nat)
| Tensor (name : string)
| OpOutput (r : nat)
| PyTuple (items : list pyobj)
| Opaque (tag : nat).

(** [isinstance(s, _stmt.Stmt)] *)
Definition is_Stmt (o : pyobj) : bool :=
  match o with
  | Evaluate _ | Block _ _ | IfThenElse _ _ _ | For _ _ _ _ _ | While _ _
  | Break | Return _ | AttrStmt _ _ _ _ | KernelDef _ _ _ _ _ _ _ _ _ => true
  | KStmtRef _ | Tensor _ | OpOutput _ | PyTuple _ | Opaque _ => false
  end.

(** [isinstance(s, _stmt.IfThenElse)] *)
Definition is_IfThenElse (o : pyobj) : bool :=
  match o with IfThenElse _ _ _ => true | _ => false end.

(** An entry of a statement list: an object, or a callable (the deferred
    wrappers are one-argument lambdas). *)
Inductive entry :=
| Obj (o : pyobj)
| Fn (f : pyobj → pyobj).

Definition callable (e : entry) : bool :=
  match e with Fn _ => true | Obj _ => false end.

(** ** Exceptions *)

Inductive exn :=
| RuntimeError (msg : string)
| ValueError (msg : string)
| AssertionError (msg : string)
| AttributeError (msg : string)
| TypeError (msg : string)
| IndexError (msg : string).

(** The error names of the specification, as the source raises them. *)
Definition IllegalEmitAfterBreak : exn :=
  RuntimeError "Cannot write statements after break".
Definition ElseWithoutIf : exn := RuntimeError "else_ can only follow an if_".
Definition ElifWithoutIf : exn := RuntimeError "elif_ can only follow an if_".
Definition BreakOutsideLoop : exn :=
  RuntimeError "break_ must be used inside a for/while loop".
Definition UnknownLoopKind : exn := ValueError "Unknown kind".
Definition ReturnWithoutReturnType : exn :=
  RuntimeError "Imperative DSL must be used with other compute APIs".

Inductive result (A : Type) :=
| Ok (a : A)
| Raise (e : exn).
Arguments Ok {A} a.
Arguments Raise {A} e.

(** ** Folding a statement list: the pure part of [KStmt.pop_stmt] *)

(** The loop [for s in reversed(stmts[:-1])] of [pop_stmt], on the
    reversed prefix [rs] and the running statement [stmt]. *)
Fixpoint pop_loop (rs : list entry) (stmt : pyobj) : result pyobj :=
  match rs with
  | [] => Ok stmt
  | Fn s :: rs' => pop_loop rs' (s stmt)
  | Obj s :: rs' =>
      if is_Stmt s then pop_loop rs' (Block s stmt)
      else Raise (AssertionError "")
  end.

(** [not stmts or callable(stmts[-1])] *)
Definition needs_noop (stmts : list entry) : bool :=
  match last stmts with
  | None => true
  | Some e => callable e
  end.

(** [pop_stmt] after [stmts = self.stmt_stack.pop()].  The last entry is
    not callable once the no-op has been appended, so the branch for a
    callable or missing last entry is never taken ([fold_stmts_total]). *)
Definition fold_stmts (stmts : list entry) : result pyobj :=
  let stmts :=
    if needs_noop stmts then stmts ++ [Obj (Evaluate (IntImm 0))] else stmts in
  match last stmts with
  | Some (Obj stmt) => pop_loop (reverse (removelast stmts)) stmt
  | Some (Fn _) | None => Raise (IndexError "list index out of range")
  end.

(** [KStmt.replace_else] *)
Fixpoint replace_else (if_stmt else_stmt : pyobj) : result pyobj :=
  match if_stmt with
  | IfThenElse c t e =>
      match e with
      | Some (IfThenElse _ _ _ as e') =>
          match replace_else e' else_stmt with
          | Ok r => Ok (IfThenElse c t (Some r))
          | Raise x => Raise x
          end
      | _ => Ok (IfThenElse c t (Some else_stmt))
      end
  | _ => Raise (AssertionError "Wrong if statement")
  end.

(** ** Blocks and the world *)

(** [_ExternOp(name, "", axis_list, input_ops, input_bufs, output_bufs,
    body, ...)]: external; the fields the builder supplies. *)
Record extern_op := ExternOp {
  op_name : string;
  op_axis : list expr;
  op_inputs : list nat;
  op_out : buffer;
  op_body : pyobj
}.

(** The attributes of a [KStmt] instance that the modelled code reads or
    writes, as [KStmt.__init__] assigns them.  The attributes for
    [ExternModule] ([ext_ip_name], [inputs], ...) are assigned once and
    never used, and are left out.  [nidx] is read and written by [for_]
    only; [__init__] does not create it, so it is an attribute that may be
    absent ([None]).  [name] is read by [__exit__], [__repr__] and
    [__getattr__]; no statement of the source assigns it (the assignment
    in [__init__] is commented out), so the constructor cannot complete
    (see [KStmt__init__]) and a block that has a name got it from
    outside the source.  The states of the theorems are given
    explicitly, as worlds in which such blocks exist. *)
Record KStmtObj := mkKStmt {
  name : string;
  stmt_stack : list (list entry);
  var_dict : gmap string pyobj;
  axis_list : list expr;
  has_break : bool;
  has_return : bool;
  ret_dtype : option dtype;
  for_level : Z;
  for_ID : Z;
  nidx : option Z;
  subKStmts : list nat;
  input_KStmts : gset nat;
  lhs_tensors : gset string;
  last_subKStmts : gset nat;
  name_with_prefix : string;
  _op : option extern_op;
  _buf : buffer
}.

Definition set_stmt_stack (v : list (list entry)) (o : KStmtObj) : KStmtObj :=
  mkKStmt (name o) v (var_dict o) (axis_list o) (has_break o) (has_return o)
    (ret_dtype o) (for_level o) (for_ID o) (nidx o) (subKStmts o)
    (input_KStmts o) (lhs_tensors o) (last_subKStmts o) (name_with_prefix o)
    (_op o) (_buf o).
Definition set_var_dict (v : gmap string pyobj) (o : KStmtObj) : KStmtObj :=
  mkKStmt (name o) (stmt_stack o) v (axis_list o) (has_break o) (has_return o)
    (ret_dtype o) (for_level o) (for_ID o) (nidx o) (subKStmts o)
    (input_KStmts o) (lhs_tensors o) (last_subKStmts o) (name_with_prefix o)
    (_op o) (_buf o).
Definition set_has_break (v : bool) (o : KStmtObj) : KStmtObj :=
  mkKStmt (name o) (stmt_stack o) (var_dict o) (axis_list o) v (has_return o)
    (ret_dtype o) (for_level o) (for_ID o) (nidx o) (subKStmts o)
    (input_KStmts o) (lhs_tensors o) (last_subKStmts o) (name_with_prefix o)
    (_op o) (_buf o).
Definition set_has_return (v : bool) (o : KStmtObj) : KStmtObj :=
  mkKStmt (name o) (stmt_stack o) (var_dict o) (axis_list o) (has_break o) v
    (ret_dtype o) (for_level o) (for_ID o) (nidx o) (subKStmts o)
    (input_KStmts o) (lhs_tensors o) (last_subKStmts o) (name_with_prefix o)
    (_op o) (_buf o).
Definition set_for_level (v : Z) (o : KStmtObj) : KStmtObj :=
  mkKStmt (name o) (stmt_stack o) (var_dict o) (axis_list o) (has_break o)
    (has_return o) (ret_dtype o) v (for_ID o) (nidx o) (subKStmts o)
    (input_KStmts o) (lhs_tensors o) (last_subKStmts o) (name_with_prefix o)
    (_op o) (_buf o).
Definition set_nidx (v : option Z) (o : KStmtObj) : KStmtObj :=
  mkKStmt (name o) (stmt_stack o) (var_dict o) (axis_list o) (has_break o)
    (has_return o) (ret_dtype o) (for_level o) (for_ID o) v (subKStmts o)
    (input_KStmts o) (lhs_tensors o) (last_subKStmts o) (name_with_prefix o)
    (_op o) (_buf o).
Definition set_subKStmts (v : list nat) (o : KStmtObj) : KStmtObj :=
  mkKStmt (name o) (stmt_stack o) (var_dict o) (axis_list o) (has_break o)
    (has_return o) (ret_dtype o) (for_level o) (for_ID o) (nidx o) v
    (input_KStmts o) (lhs_tensors o) (last_subKStmts o) (name_with_prefix o)
    (_op o) (_buf o).
Definition set_input_KStmts (v : gset nat) (o : KStmtObj) : KStmtObj :=
  mkKStmt (name o) (stmt_stack o) (var_dict o) (axis_list o) (has_break o)
    (has_return o) (ret_dtype o) (for_level o) (for_ID o) (nidx o)
    (subKStmts o) v (lhs_tensors o) (last_subKStmts o) (name_with_prefix o)
    (_op o) (_buf o).
Definition set_lhs_tensors (v : gset string) (o : KStmtObj) : KStmtObj :=
  mkKStmt (name o) (stmt_stack o) (var_dict o) (axis_list o) (has_break o)
    (has_return o) (ret_dtype o) (for_level o) (for_ID o) (nidx o)
    (subKStmts o) (input_KStmts o) v (last_subKStmts o) (name_with_prefix o)
    (_op o) (_buf o).
Definition set_last_subKStmts (v : gset nat) (o : KStmtObj) : KStmtObj :=
  mkKStmt (name o) (stmt_stack o) (var_dict o) (axis_list o) (has_break o)
    (has_return o) (ret_dtype o) (for_level o) (for_ID o) (nidx o)
    (subKStmts o) (input_KStmts o) (lhs_tensors o) v (name_with_prefix o)
    (_op o) (_buf o).
Definition set_name_with_prefix (v : string) (o : KStmtObj) : KStmtObj :=
  mkKStmt (name o) (stmt_stack o) (var_dict o) (axis_list o) (has_break o)
    (has_return o) (ret_dtype o) (for_level o) (for_ID o) (nidx o)
    (subKStmts o) (input_KStmts o) (lhs_tensors o) (last_subKStmts o) v
    (_op o) (_buf o).
Definition set_op (v : option extern_op) (o : KStmtObj) : KStmtObj :=
  mkKStmt (name o) (stmt_stack o) (var_dict o) (axis_list o) (has_break o)
    (has_return o) (ret_dtype o) (for_level o) (for_ID o) (nidx o)
    (subKStmts o) (input_KStmts o) (lhs_tensors o) (last_subKStmts o)
    (name_with_prefix o) v (_buf o).

(** The world: the heap of [KStmt] instances, the attributes of the class
    object [KStmt] ([_current], and [has_break] and [for_level], which
    exist on the class only once [for_] has assigned them there), and the
    two registries of the external [Schedule]. *)
Record World := mkWorld {
  heap : gmap nat KStmtObj;
  _current : list nat;
  cls_has_break : option bool;
  cls_for_level : option Z;
  KStmt_ops : list nat;
  last_KStmts : gset nat
}.

Definition set_heap (v : gmap nat KStmtObj) (w : World) : World :=
  mkWorld v (_current w) (cls_has_break w) (cls_for_level w) (KStmt_ops w)
    (last_KStmts w).
Definition set_current (v : list nat) (w : World) : World :=
  mkWorld (heap w) v (cls_has_break w) (cls_for_level w) (KStmt_ops w)
    (last_KStmts w).
Definition set_cls_has_break (v : option bool) (w : World) : World :=
  mkWorld (heap w) (_current w) v (cls_for_level w) (KStmt_ops w)
    (last_KStmts w).
Definition set_cls_for_level (v : option Z) (w : World) : World :=
  mkWorld (heap w) (_current w) (cls_has_break w) v (KStmt_ops w)
    (last_KStmts w).
Definition set_registry (ops : list nat) (l : gset nat) (w : World) : World :=
  mkWorld (heap w) (_current w) (cls_has_break w) (cls_for_level w) ops l.

(** ** The builder monad: state that survives an exception *)

Definition M (A : Type) : Type := World → result A * World.

Definition ret {A} (a : A) : M A := λ w, (Ok a, w).
Definition raise {A} (e : exn) : M A := λ w, (Raise e, w).
Definition bind {A B} (m : M A) (k : A → M B) : M B :=
  λ w, match m w with
       | (Ok a, w') => k a w'
       | (Raise e, w') => (Raise e, w')
       end.

Declare Scope builder_scope.
Delimit Scope builder_scope with M.
Notation "'let*' x := m 'in' k" := (bind m (λ x, k))
  (at level 10, x name, m at level 100, k at level 200) : builder_scope.
Notation "m >> k" := (bind m (λ _, k))
  (at level 100, k at level 200, right associativity) : builder_scope.
Local Open Scope builder_scope.

(** A reference always denotes a live object in Python; a reference
    outside the heap has no counterpart there and stops the model. *)
Definition deref (r : nat) : M KStmtObj :=
  λ w, match heap w !! r with
       | Some o => (Ok o, w)
       | None => (Raise (AttributeError "no such object"), w)
       end.

(** Attribute assignment on the instance [r]. *)
Definition update (r : nat) (f : KStmtObj → KStmtObj) : M unit :=
  let* o := deref r in
  λ w, (Ok tt, set_heap (<[r := f o]> (heap w)) w).

(** ** KStmt methods *)

(** [KStmt.get_current]: [KStmt._current[-1]] *)
Definition get_current : M nat :=
  λ w, match last (_current w) with
       | Some r => (Ok r, w)
       | None => (Raise (IndexError "list index out of range"), w)
       end.

(** [KStmt.get_len] *)
Definition get_len : M nat := λ w, (Ok (length (_current w)), w).

(** [KStmt.emit] *)
Definition emit (self : nat) (stmt : entry) : M unit :=
  let* o := deref self in
  if has_break o then raise IllegalEmitAfterBreak
  else
    match last (stmt_stack o) with
    | Some top =>
        update self
          (set_stmt_stack (removelast (stmt_stack o) ++ [top ++ [stmt]]))
    | None => raise (IndexError "list index out of range")
    end.

(** [self.stmt_stack.append([])] *)
Definition push_scope (self : nat) : M unit :=
  update self (λ o, set_stmt_stack (stmt_stack o ++ [[]]) o).

(** [KStmt.pop_stmt] *)
Definition pop_stmt (self : nat) : M pyobj :=
  let* o := deref self in
  match last (stmt_stack o) with
  | None => raise (IndexError "pop from empty list")
  | Some stmts =>
      update self (set_stmt_stack (removelast (stmt_stack o))) >>
      match fold_stmts stmts with
      | Ok stmt => ret stmt
      | Raise e => raise e
      end
  end.

(** [str] of a set, from the [repr] of its elements; [KStmt.__repr__]
    returns the name, and a tensor is shown by its name *)
Definition py_str_set (items : list string) : string :=
  match items with
  | [] => "set()"
  | _ => "{" +:+ String.concat ", " items +:+ "}"
  end.


(** [KStmt.__enter__] *)
Definition KStmt__enter__ (self : nat) : M nat :=
  λ w, (Ok self, set_current (_current w ++ [self]) w).

(** [KStmt._current.pop()] *)
Definition pop_current : M unit :=
  λ w, match _current w with
       | [] => (Raise (IndexError "pop from empty list"), w)
       | c => (Ok tt, set_current (removelast c) w)
       end.

(** [KStmt.__exit__].  [init_values] is [None] on every instance of the
    source, so the operation is built by the second call of [_ExternOp].
    Every statement reads the objects again: [self] and [superKStmt] may
    be one object.  The lambda reads [self._buf] and [superKStmt.name]
    when it is called; no statement of the source assigns either after
    the constructor, so their values at the emission are used. *)
Definition KStmt__exit__ (self : nat) : M unit :=
  update self (λ o, set_input_KStmts (last_subKStmts o ∪ input_KStmts o) o) >>
  let* o := deref self in
  let input_ops := elements (input_KStmts o) in
  let* body := pop_stmt self in
  pop_current >>
  update self
    (set_op (Some (ExternOp (name o) (axis_list o) input_ops (_buf o) body))) >>
  let* cur := (λ w, (Ok (_current w), w)) in
  match last cur with
  | Some superKStmt =>
      let* so := deref superKStmt in
      let* o := deref self in
      emit superKStmt
        (Fn (λ x, AttrStmt (_buf o) "attach_scope" (StringImm (name so)) x)) >>
      let* o := deref self in
      update superKStmt
        (λ s, set_input_KStmts (input_KStmts s ∪ input_KStmts o) s) >>
      update superKStmt
        (λ s, set_input_KStmts (input_KStmts s ∖ last_subKStmts s) s) >>
      update superKStmt
        (λ s, set_last_subKStmts (last_subKStmts s ∪ {[self]}) s) >>
      let* o := deref self in
      update superKStmt
        (λ s, set_last_subKStmts (last_subKStmts s ∖ input_KStmts o) s) >>
      let* o := deref self in
      update superKStmt
        (λ s, set_lhs_tensors (lhs_tensors s ∪ lhs_tensors o) s) >>
      let* o := deref self in
      update superKStmt
        (λ s, set_var_dict (<[name o := KStmtRef self]> (var_dict s)) s) >>
      let* so := deref superKStmt in
      update self
        (λ o, set_name_with_prefix (name_with_prefix so +:+ "." +:+ name o) o) >>
      update superKStmt (λ s, set_subKStmts (subKStmts s ++ [self]) s)
  | None =>
      let* o := deref self in
      λ w, (Ok tt,
            set_registry (KStmt_ops w ++ [self])
              ((last_KStmts w ∪ {[self]}) ∖ input_KStmts o) w)
  end.

(** [KStmt.__getattr__], called for an attribute that neither the
    instance nor the class has.  A set is iterated in the order of
    [elements]. *)
Definition KStmt__getattr__ (self : nat) (attr : string) : M pyobj :=
  let* o := deref self in
  match var_dict o !! attr with
  | Some v => ret v
  | None =>
      if bool_decide (attr ∈ lhs_tensors o)
      then ret (PyTuple [KStmtRef self; Tensor attr])
      else λ w,
        let ins := elements (input_KStmts o) in
        let named k :=
          match heap w !! k with
          | Some ko => bool_decide (name ko = attr)
          | None => false
          end in
        let writes k :=
          match heap w !! k with
          | Some ko => bool_decide (attr ∈ lhs_tensors ko)
          | None => false
          end in
        let repr k :=
          match heap w !! k with
          | Some ko => name ko
          | None => ""
          end in
        match List.find named ins with
        | Some k => (Ok (PyTuple [KStmtRef self; OpOutput k]), w)
        | None =>
            match List.find writes ins with
            | Some _ => (Ok (PyTuple [KStmtRef self; Tensor attr]), w)
            | None =>
                (Raise (ValueError
                          ("Member " +:+ attr +:+ " not found in "
                           +:+ py_str_set (elements (lhs_tensors o))
                           +:+ " or " +:+ py_str_set (map repr ins))), w)
            end
        end
  end.

(** ** Scoped acquisition *)

(** [tvm.tir.ir_builder.WithScope(enter_value, exit_cb)] *)
Record WithScope (A : Type) := mkWithScope {
  enter_value : A;
  exit_cb : M unit
}.
Arguments mkWithScope {A} _ _.
Arguments enter_value {A} _.
Arguments exit_cb {A} _.

(** The [with] statement: the exit action runs whether the body returned
    or raised; an exception of the body goes on unless the exit action
    raises one of its own. *)
Definition with_exit {B} (body : M B) (exit : M unit) : M B :=
  λ w, match body w with
       | (Ok b, w1) =>
           match exit w1 with
           | (Ok _, w2) => (Ok b, w2)
           | (Raise e, w2) => (Raise e, w2)
           end
       | (Raise e, w1) =>
           match exit w1 with
           | (Ok _, w2) => (Raise e, w2)
           | (Raise e', w2) => (Raise e', w2)
           end
       end.

(** [with construct as x: body] for a construct that returns a
    [WithScope]. *)
Definition with_ {A B} (construct : M (WithScope A)) (body : A → M B) : M B :=
  let* scope := construct in
  with_exit (body (enter_value scope)) (exit_cb scope).

(** [with s: body] for a [KStmt] instance [s]. *)
Definition with_KStmt {B} (s : nat) (body : M B) : M B :=
  let* self := KStmt__enter__ s in
  with_exit body (KStmt__exit__ self).

(** ** Control-flow constructs (ukg.py) *)

(** [ukg_stmt.has_break = False] on the instance *)
Definition clear_has_break (ukg_stmt : nat) : M unit :=
  update ukg_stmt (set_has_break false).

(** [if_] *)
Definition if_exit_cb (ukg_stmt : nat) (cond : expr) : M unit :=
  let* stmt := pop_stmt ukg_stmt in
  clear_has_break ukg_stmt >>
  emit ukg_stmt (Obj (IfThenElse cond stmt None)).

Definition if_ (cond : expr) : M (WithScope unit) :=
  let* ukg_stmt := get_current in
  push_scope ukg_stmt >>
  ret (mkWithScope tt (if_exit_cb ukg_stmt cond)).

(** [prev = ukg_stmt.stmt_stack[-1][-1]] after the test
    [not ukg_stmt.stmt_stack[-1]] of [else_] and [elif_]: the last entry
    of the current scope, or the error [err] when the scope is empty. *)
Definition prev_entry (ukg_stmt : nat) (err : exn) : M entry :=
  let* o := deref ukg_stmt in
  match last (stmt_stack o) with
  | None => raise (IndexError "list index out of range")
  | Some top =>
      match last top with
      | None => raise err
      | Some prev => ret prev
      end
  end.

(** [ukg_stmt.stmt_stack[-1].pop()] *)
Definition pop_entry (ukg_stmt : nat) : M unit :=
  let* o := deref ukg_stmt in
  match last (stmt_stack o) with
  | None => raise (IndexError "list index out of range")
  | Some [] => raise (IndexError "pop from empty list")
  | Some top =>
      update ukg_stmt
        (set_stmt_stack (removelast (stmt_stack o) ++ [removelast top]))
  end.


(** [else_] *)
Definition else_exit_cb (ukg_stmt : nat) (prev : pyobj) : M unit :=
  let* stmt := pop_stmt ukg_stmt in
  clear_has_break ukg_stmt >>
  match replace_else prev stmt with
  | Ok s => emit ukg_stmt (Obj s)
  | Raise e => raise e
  end.

Definition else_ : M (WithScope unit) :=
  let* ukg_stmt := get_current in
  let* prev := prev_entry ukg_stmt ElseWithoutIf in
  match prev with
  | Obj (IfThenElse c t e as p) =>
      if bool_decide (is_Some e) then raise ElseWithoutIf
      else
        pop_entry ukg_stmt >>
        push_scope ukg_stmt >>
        ret (mkWithScope tt (else_exit_cb ukg_stmt p))
  | _ => raise ElseWithoutIf
  end.

(** [elif_] *)
Definition elif_exit_cb (ukg_stmt : nat) (prev : pyobj) (cond : expr)
  : M unit :=
  let* stmt := pop_stmt ukg_stmt in
  clear_has_break ukg_stmt >>
  match replace_else prev (IfThenElse cond stmt None) with
  | Ok s => emit ukg_stmt (Obj s)
  | Raise e => raise e
  end.

Definition elif_ (cond : expr) : M (WithScope unit) :=
  let* ukg_stmt := get_current in
  let* prev := prev_entry ukg_stmt ElifWithoutIf in
  match prev with
  | Obj (IfThenElse c t e as p) =>
      pop_entry ukg_stmt >>
      push_scope ukg_stmt >>
      ret (mkWithScope tt (elif_exit_cb ukg_stmt p cond))
  | _ => raise ElifWithoutIf
  end.

(** The read [ukg_stmt.nidx]: the instance attribute when it exists;
    otherwise the class has none either and [__getattr__] runs, which
    raises unless the name is bound to an entity of the block, and such an
    entity is not a number. *)
Definition get_nidx (ukg_stmt : nat) : M Z :=
  let* o := deref ukg_stmt in
  match nidx o with
  | Some n => ret n
  | None =>
      let* _ := KStmt__getattr__ ukg_stmt "nidx" in
      raise (TypeError "'<' not supported")
  end.

(** [chr(c)] for the code points [for_] can ask for (below 108) *)
Definition py_chr (c : Z) : M string :=
  if 0 <=? c then ret (String (Ascii.ascii_of_N (Z.to_N c)) "")
  else raise (ValueError "chr() arg not in range").

(** [KStmt.for_level += 1]: an attribute of the class object *)
Definition cls_for_level_incr : M unit :=
  λ w, match cls_for_level w with
       | Some l => (Ok tt, set_cls_for_level (Some (l + 1)) w)
       | None =>
           (Raise (AttributeError
                     "type object 'KStmt' has no attribute 'for_level'"), w)
       end.

(** [KStmt.has_break = False]: an attribute of the class object *)
Definition cls_clear_has_break : M unit :=
  λ w, (Ok tt, set_cls_has_break (Some false) w).

(** [begin == 0] *)
Definition is_zero (e : expr) : bool :=
  match e with IntImm 0 => true | _ => false end.

(** [end - begin]: arithmetic on two Python integers, a node otherwise *)
Definition py_sub (a b : expr) : expr :=
  match a, b with
  | IntImm x, IntImm y => IntImm (x - y)
  | _, _ => Sub a b
  end.

(** The chain of tests on [kind] in the exit callback of [for_] *)
Definition kind_id (kind : string) : result ForKind :=
  if String.eqb kind "serial" then Ok SERIAL
  else if String.eqb kind "parallel" then Ok PARALLEL
  else if String.eqb kind "vectorize" then Ok VECTORIZED
  else if String.eqb kind "unroll" then Ok UNROLLED
  else Raise UnknownLoopKind.

(** [for_]: the exit callback *)
Definition for_exit_cb (ukg_stmt : nat) (loop_var begin extent : expr)
  (kind : string) : M unit :=
  match kind_id kind with
  | Raise e => raise e
  | Ok k =>
      cls_clear_has_break >>
      cls_for_level_incr >>
      emit ukg_stmt (Obj (For loop_var begin extent k (KStmtRef ukg_stmt)))
  end.

(** The default name of a loop variable, from the counter [n] *)
Definition loop_name (n : Z) : M string :=
  if n <? 3 then py_chr (105 + n)
  else ret ("i" +:+ "_" +:+ pretty (n - 3)).

(** [for_(begin, end, name, dtype, kind)]; the defaults of the source are
    ["i"], ["int32"] and ["serial"]. *)
Definition for_ (begin end_ : expr) (nm dt kind : string)
  : M (WithScope expr) :=
  let* ukg_stmt := get_current in
  let* nm :=
    (if String.eqb nm "i" then
       let* n := get_nidx ukg_stmt in
       let* nm' := loop_name n in
       let* n := get_nidx ukg_stmt in
       update ukg_stmt (set_nidx (Some (n + 1))) >>
       ret nm'
     else ret nm) in
  push_scope ukg_stmt >>
  let loop_var := Var nm dt in
  let extent := if is_zero begin then end_ else py_sub end_ begin in
  cls_for_level_incr >>
  ret (mkWithScope loop_var (for_exit_cb ukg_stmt loop_var begin extent kind)).

(** [while_] *)
Definition while_exit_cb (ukg_stmt : nat) (condition : expr) : M unit :=
  let* stmt := pop_stmt ukg_stmt in
  clear_has_break ukg_stmt >>
  update ukg_stmt (λ o, set_for_level (for_level o - 1) o) >>
  emit ukg_stmt (Obj (While condition stmt)).

Definition while_ (condition : expr) : M (WithScope unit) :=
  let* ukg_stmt := get_current in
  push_scope ukg_stmt >>
  update ukg_stmt (λ o, set_for_level (for_level o + 1) o) >>
  ret (mkWithScope tt (while_exit_cb ukg_stmt condition)).

(** [break_] *)
Definition break_ : M unit :=
  let* c := get_current in
  let* o := deref c in
  if for_level o =? 0 then raise BreakOutsideLoop
  else
    let* c := get_current in
    emit c (Obj Break) >>
    let* c := get_current in
    update c (set_has_break true).

(** [return_] *)
Definition return_ (val : expr) : M unit :=
  let* n := get_len in
  if bool_decide (n = 0%nat) then raise ReturnWithoutReturnType
  else
    let* ukg_stmt := get_current in
    let* o := deref ukg_stmt in
    let dt := get_tvm_dtype (ret_dtype o) None in
    emit ukg_stmt (Obj (Return (Cast dt val))) >>
    update ukg_stmt (set_has_return true).

(** ** Function definition (ukg.py, [def_]) *)






(** ** Worlds to run examples in *)

(** Nothing created yet: the class as its definition leaves it *)
Definition empty_world : World := mkWorld ∅ [] None None [] ∅.

(** Some statements and conditions for the examples *)
Definition S1 : pyobj := Evaluate (IntImm 1).
Definition S2 : pyobj := Evaluate (IntImm 2).
Definition S3 : pyobj := Evaluate (IntImm 3).

(** ** What a scope list denotes *)

(** The no-op statement [_stmt.Evaluate(0)] *)
Definition noop : pyobj := Evaluate (IntImm 0).

(** The statement a scope list stands for, read from its head: a concrete
    statement is put in sequence before what follows it, a deferred
    wrapper is applied to what follows it, and nothing stands for the
    no-op. *)
Fixpoint scope_denotation (l : list entry) : pyobj :=
  match l with
  | [] => noop
  | Fn w :: l' => w (scope_denotation l')
  | Obj s :: l' =>
      match l' with
      | [] => s
      | _ => Block s (scope_denotation l')
      end
  end.

(** A right-nested sequence of statements, in their order *)
Fixpoint right_nested (ss : list pyobj) : pyobj :=
  match ss with
  | [] => noop
  | [s] => s
  | s :: ss' => Block s (right_nested ss')
  end.

(** An entry on which the assertion of [pop_stmt] fails *)
Definition bad (e : entry) : bool :=
  match e with
  | Fn _ => false
  | Obj o => negb (is_Stmt o)
  end.

(** The entries [pop_stmt] walks over, [stmts[:-1]] after the no-op was
    appended or not *)
Definition checked (l : list entry) : list entry :=
  if needs_noop l then l else removelast l.

(** One step of the fold *)
Definition wrap_or_seq (e : entry) (R : pyobj) : pyobj :=
  match e with
  | Fn w => w R
  | Obj s => Block s R
  end.

(** The list [pop_stmt] folds, with the no-op appended when the list is
    empty or ends in a wrapper; its last statement, where the fold starts;
    and the earlier entries, which are scanned from the right. *)
Definition with_noop (l : list entry) : list entry :=
  if needs_noop l then l ++ [Obj noop] else l.
Definition final_stmt (l : list entry) : pyobj :=
  match last (with_noop l) with
  | Some (Obj s) => s
  | _ => noop
  end.
Definition earlier (l : list entry) : list entry := removelast (with_noop l).

(** Every entry is a wrapper or a statement node *)
Definition entries_ok (l : list entry) : bool := negb (existsb bad l).

(** A block with a given scope stack, break flag and loop depth, and the
    world in which it is the only block and is open *)
Definition block_with (stack : list (list entry)) (hb : bool) (lvl : Z)
  : KStmtObj :=
  mkKStmt "P" stack ∅ [] hb false None lvl 0 None [] ∅ ∅ ∅ "P" None
    (decl_buffer [] None "P").
Definition world_of (o : KStmtObj) : World :=
  mkWorld {[0%nat := o]} [0%nat] None None [] ∅.

(** A deferred wrapper, as [__exit__] emits them *)
Definition attach (x : pyobj) : pyobj :=
  AttrStmt (decl_buffer [] None "A") "attach_scope" (StringImm "P") x.

(** A block named [nm] whose other attributes have the values that
    lines 80-98 of [__init__] assign (outside any other block) *)
Definition fresh_block (nm : string) : KStmtObj :=
  mkKStmt nm [[]] ∅ [] false false None 0 0 None [] ∅ ∅ ∅ nm None
    (decl_buffer [] None nm).

(** A parent [P] (reference 0), open, and two blocks [A] and [B]
    (references 1 and 2) that exist and are not entered *)
Definition family_world : World :=
  mkWorld (<[0%nat := fresh_block "P"]>
             (<[1%nat := fresh_block "A"]>
                (<[2%nat := fresh_block "B"]> ∅)))
    [0%nat] None None [] ∅.

(** The same with [A] entered *)
Definition closing_world : World := set_current [0%nat; 1%nat] family_world.

(** Leaving [with P: with A: pass] once both blocks are entered, as in
    [closing_world]: [A] (reference 1) closes, then [P] (reference 0) *)
Definition close_nested : M unit := KStmt__exit__ 1 >> KStmt__exit__ 0.

(** [with A: pass] and then [with B: pass] *)
Definition close_siblings (A B : nat) : M unit :=
  with_KStmt A (ret tt) >> with_KStmt B (ret tt).

(** The invariant of the specification on a block's dependency sets *)
Definition sets_disjoint (o : KStmtObj) : Prop :=
  input_KStmts o ∩ last_subKStmts o = ∅.

(** Conditions for the examples *)
Definition c1 : expr := GT (Var "x" "int32") (IntImm 1).
Definition c2 : expr := GT (Var "x" "int32") (IntImm 2).
Definition c3 : expr := GT (Var "x" "int32") (IntImm 3).

(** [KStmt.get_current().emit(s)], as host code emits a statement *)
Definition emit_stmt (s : pyobj) : M unit :=
  let* c := get_current in
  emit c (Obj s).


(** [with if_(a): break_()] and then, in a sibling scope,
    [with if_(b): s] *)
Definition break_then_sibling (a b : expr) (s : pyobj) : M unit :=
  with_ (if_ a) (λ _, break_) >>
  with_ (if_ b) (λ _, emit_stmt s).

(** [for_(b, e)] with the defaults of the source for the name, the data
    type and the kind *)
Definition for_default (b e : Z) : M (WithScope expr) :=
  for_ (IntImm b) (IntImm e) "i" "int32" "serial".

(** The condition [A[i] > 3] *)
Definition A_gt_3 (i : expr) : expr := GT (Load "A" i) (IntImm 3).

(** Four loops with the default name, one after the other *)
Definition four_loops : M unit :=
  with_ (for_default 0 5) (λ _, ret tt) >>
  with_ (for_default 0 5) (λ _, ret tt) >>
  with_ (for_default 0 5) (λ _, ret tt) >>
  with_ (for_default 2 7) (λ _, ret tt).

(** What the examples look at: the outcome, and the scope stack and the
    loop depth of the block [P] (reference 0) *)
Definition outcome {A} (r : result A * World) : result A := r.1.
Definition stack_of_P {A} (r : result A * World) : option (list (list entry)) :=
  stmt_stack <$> heap r.2 !! 0%nat.
Definition for_level_of_P {A} (r : result A * World) : option Z :=
  for_level <$> heap r.2 !! 0%nat.




(** ** Definitions for the further properties *)

(** The branches of a conditional chain, [(condition, then-case)] from
    the outermost conditional down its else-ifs; and the else-branch the
    chain ends in, if any *)
Fixpoint branches (s : pyobj) : list (expr * pyobj) :=
  match s with
  | IfThenElse c t e =>
      (c, t) :: match e with
                | Some (IfThenElse _ _ _ as e') => branches e'
                | _ => []
                end
  | _ => []
  end.

Fixpoint final_else (s : pyobj) : option pyobj :=
  match s with
  | IfThenElse _ _ e =>
      match e with
      | Some (IfThenElse _ _ _ as e') => final_else e'
      | _ => e
      end
  | _ => None
  end.

Fixpoint chain_length (s : pyobj) : nat :=
  match s with
  | IfThenElse _ _ e =>
      S match e with
        | Some (IfThenElse _ _ _ as e') => chain_length e'
        | _ => 0
        end
  | _ => 0
  end.

(** What a statement [s] put in an else-branch adds to a chain: its own
    branches when it is a conditional, and the else the chain then ends
    in *)
Definition tail_branches (s : pyobj) : list (expr * pyobj) :=
  if is_IfThenElse s then branches s else [].
Definition tail_else (s : pyobj) : option pyobj :=
  if is_IfThenElse s then final_else s else Some s.

(** The statements of a sequence node, read along its second field *)
Fixpoint flatten_seq (o : pyobj) : list pyobj :=
  match o with
  | Block a b => a :: flatten_seq b
  | _ => [o]
  end.

Definition is_Block (o : pyobj) : bool :=
  match o with Block _ _ => true | _ => false end.

(** [self.emit(e)] for each entry of a list, in order *)
Fixpoint emit_all (self : nat) (l : list entry) : M unit :=
  match l with
  | [] => ret tt
  | e :: l' => emit self e >> emit_all self l'
  end.

(** The world with one more, empty, scope on the block [c] (after
    [stmt_stack.append([])]), and with the loop depth of the block raised
    as well (after the entry of [while_]) *)
Definition enter_scope (c : nat) (o : KStmtObj) (w : World) : World :=
  set_heap (<[c := set_stmt_stack (stmt_stack o ++ [[]]) o]> (heap w)) w.

Definition enter_loop (c : nat) (o : KStmtObj) (w : World) : World :=
  set_heap
    (<[c := set_for_level (for_level o + 1)
              (set_stmt_stack (stmt_stack o ++ [[]]) o)]> (heap w)) w.

(** The world after [else_] or [elif_] has taken the last entry off the
    scope [top'] and opened a scope *)
Definition enter_branch (c : nat) (o : KStmtObj) (rest : list (list entry))
  (top' : list entry) (w : World) : World :=
  set_heap (<[c := set_stmt_stack ((rest ++ [top']) ++ [[]]) o]> (heap w)) w.

(** The world after an exit callback: the scopes of [c] are [rest] and
    [top] with [node] appended, the break flag is unset, and, for
    [while_], the loop depth is one less *)
Definition close_scope (c : nat) (o2 : KStmtObj) (rest : list (list entry))
  (top : list entry) (node : pyobj) (w2 : World) : World :=
  set_heap
    (<[c := set_stmt_stack (rest ++ [top ++ [Obj node]])
              (set_has_break false o2)]> (heap w2)) w2.

Definition close_loop (c : nat) (o2 : KStmtObj) (rest : list (list entry))
  (top : list entry) (node : pyobj) (w2 : World) : World :=
  set_heap
    (<[c := set_stmt_stack (rest ++ [top ++ [Obj node]])
              (set_for_level (for_level o2 - 1) (set_has_break false o2))]>
       (heap w2)) w2.

(** The name [for_] gives a loop variable from the counter [m], and the
    extent it computes *)
Definition default_name (m : Z) : string :=
  if m <? 3 then String (Ascii.ascii_of_N (Z.to_N (105 + m))) ""
  else "i" +:+ "_" +:+ pretty (m - 3).

Definition loop_extent (b e : expr) : expr :=
  if is_zero b then e else py_sub e b.

(** Nothing answers to the name [a] in the block [o]: no entry of
    [var_dict], no written tensor, and no input block of that name or
    writing a tensor of that name *)
Definition unresolved (w : World) (o : KStmtObj) (a : string) : Prop :=
  var_dict o !! a = None ∧ (a ∉ lhs_tensors o) ∧
  ∀ k ko, k ∈ input_KStmts o → heap w !! k = Some ko →
          name ko ≠ a ∧ (a ∉ lhs_tensors ko).

(** *** The preparation of the arguments in [def_] (ukg.py 336-383) *)



(** [for i in range(len(arg_names)): names[i] = arg_names[i]], from the
    index [i] on *)
Fixpoint assign_names (names : list string) (i : nat) (arg_names : list string)
  : result (list string) :=
  match arg_names with
  | [] => Ok names
  | a :: rest =>
      if decide (i < length names)%nat
      then assign_names (<[i := a]> names) (S i) rest
      else Raise (IndexError "list assignment index out of range")
  end.

(** Lines 336-341: the parameter names, [code.co_varnames] with the
    explicit [arg_names] written over its first elements *)
Definition rename_params (names : list string)
  (arg_names : option (list string)) : result (list string) :=
  match arg_names with
  | None => Ok names
  | Some l => assign_names names 0 l
  end.







(** *** The decorator *)



(** *** Inputs for the examples *)

(** [if c1: S1 elif c2: S2] as a node *)
Definition chain12 : pyobj := IfThenElse c1 S1 (Some (IfThenElse c2 S2 None)).

(** The open block [P] with one empty scope; with a statement in it; and
    with the counter of [for_] created *)
Definition P0 : KStmtObj := block_with [[]] false 0.
Definition P_S1 : KStmtObj := block_with [[Obj S1]] false 0.
Definition P_counting : KStmtObj := set_nidx (Some 0) P0.

(** The world of one open block in which the class attribute
    [KStmt.for_level] exists *)
Definition cls_world (o : KStmtObj) : World :=
  set_cls_for_level (Some 0) (world_of o).

(** [closing_world] with the break flag of the parent set *)
Definition broken_parent_world : World :=
  set_heap (<[0%nat := set_has_break true (fresh_block "P")]>
              (heap closing_world)) closing_world.

(** ** Attributes that an operation leaves alone *)

(** Every object of [w] is still an object of [w'], with the same value
    of the attribute [f] *)
Definition keeps {X} (f : KStmtObj → X) (w w' : World) : Prop :=
  ∀ c o, heap w !! c = Some o → ∃ o', heap w' !! c = Some o' ∧ f o' = f o.

(** Whatever its outcome, the operation [m] keeps the attribute [f] of
    every object and, when [cur] is set, the list of open blocks *)
Definition Frames {X A} (cur : bool) (f : KStmtObj → X) (m : M A) : Prop :=
  ∀ w r w', m w = (r, w') →
    (cur = true → _current w' = _current w) ∧ keeps f w w'.

(** The scope returned by a construct closes with an operation that
    keeps [f] *)
Definition ExitFrames {X A} (cur : bool) (f : KStmtObj → X)
  (enter : M (WithScope A)) : Prop :=
  ∀ w ws w', enter w = (Ok ws, w') → Frames cur f (exit_cb ws).

(** Whether the block has no attribute [nidx] *)
Definition lacks_nidx (o : KStmtObj) : bool :=
  match nidx o with None => true | Some _ => false end.

(** The exit callbacks that fold: [closing c b cb node] says that [cb] is
    the exit callback of [if_], [else_], [elif_] or [while_] on the block
    [c], and that it emits [node] when the scope it pops folds to [b] *)
Inductive closing (c : nat) (b : pyobj) : M unit → pyobj → Prop :=
| closing_if cond :
    closing c b (if_exit_cb c cond) (IfThenElse cond b None)
| closing_else c0 t :
    closing c b (else_exit_cb c (IfThenElse c0 t None))
      (IfThenElse c0 t (Some b))
| closing_elif p cond r :
    replace_else p (IfThenElse cond b None) = Ok r →
    closing c b (elif_exit_cb c p cond) r
| closing_while cond :
    closing c b (while_exit_cb c cond) (While cond b).

(** ** Bodies written with the constructs *)

(** What host code can write inside a block with the constructs of the
    DSL: a statement emitted into the current block, [return_(v)],
    [break_()], one piece after another, a body under one of the scoped
    constructs, and a body under [with b:] for a block [b] that exists.
    A body is traced once, from top to bottom. *)
Inductive code :=
| Emit (s : pyobj)
| Return_ (v : expr)
| Break_
| Seq (a b : code)
| WithIf (c : expr) (body : code)
| WithElse (body : code)
| WithElif (c : expr) (body : code)
| WithWhile (c : expr) (body : code)
| WithFor (b e : expr) (nm dt kind : string) (body : code)
| WithBlock (r : nat) (body : code).

Fixpoint run (p : code) : M unit :=
  match p with
  | Emit s => emit_stmt s
  | Return_ v => return_ v
  | Break_ => break_
  | Seq a b => run a >> run b
  | WithIf c body => with_ (if_ c) (λ _, run body)
  | WithElse body => with_ else_ (λ _, run body)
  | WithElif c body => with_ (elif_ c) (λ _, run body)
  | WithWhile c body => with_ (while_ c) (λ _, run body)
  | WithFor b e nm dt kind body => with_ (for_ b e nm dt kind) (λ _, run body)
  | WithBlock r body => with_KStmt r (run body)
  end.





(** * Properties *)

(** ** Folding *)

Lemma pop_loop_snoc rs x k :
  pop_loop (rs ++ [x]) k =
  match pop_loop rs k with
  | Ok r => if bad x then Raise (AssertionError "") else Ok (wrap_or_seq x r)
  | Raise e => Raise e
  end.
Proof.
  revert k. induction rs as [|y rs IH]; intros k; simpl.
  - destruct x as [o|f]; simpl; [destruct (is_Stmt o)|]; reflexivity.
  - destruct y as [o|f]; [destruct (is_Stmt o)|]; auto.
Qed.

Lemma pop_loop_reverse l k :
  pop_loop (reverse l) k =
  if existsb bad l then Raise (AssertionError "")
  else Ok (foldr wrap_or_seq k l).
Proof.
  induction l as [|x l IH]; simpl; [reflexivity|].
  rewrite reverse_cons, pop_loop_snoc, IH.
  destruct (existsb bad l); simpl.
  - rewrite orb_true_r. reflexivity.
  - rewrite orb_false_r. reflexivity.
Qed.

Lemma denotation_snoc_obj l s :
  scope_denotation (l ++ [Obj s]) = foldr wrap_or_seq s l.
Proof.
  induction l as [|x l IH]; simpl; [reflexivity|].
  destruct x as [o|f]; simpl.
  - rewrite IH. destruct l; reflexivity.
  - rewrite IH. reflexivity.
Qed.

Lemma denotation_snoc_fn l w :
  scope_denotation (l ++ [Fn w]) = foldr wrap_or_seq noop (l ++ [Fn w]).
Proof.
  induction l as [|x l IH]; simpl; [reflexivity|].
  destruct x as [o|f]; simpl.
  - rewrite IH. destruct l; reflexivity.
  - rewrite IH. reflexivity.
Qed.

(** [fold_stmts] fails exactly on its assertion, and otherwise returns
    the statement the list denotes. *)
Lemma fold_stmts_spec l :
  fold_stmts l =
  if existsb bad (checked l) then Raise (AssertionError "")
  else Ok (scope_denotation l).
Proof.
  unfold fold_stmts, checked.
  destruct l as [|x l] using rev_ind; [reflexivity|].
  clear IHl. unfold needs_noop. rewrite last_snoc.
  destruct x as [o|f]; simpl.
  - rewrite last_snoc, removelast_last, pop_loop_reverse, denotation_snoc_obj.
    reflexivity.
  - rewrite last_snoc, removelast_last, pop_loop_reverse, denotation_snoc_fn.
    reflexivity.
Qed.

(** The branch of [fold_stmts] for a missing or callable last entry is
    dead: the result is a statement or the assertion error. *)
Lemma fold_stmts_total l :
  (∃ s, fold_stmts l = Ok s) ∨ fold_stmts l = Raise (AssertionError "").
Proof.
  rewrite fold_stmts_spec. destruct (existsb bad (checked l)); eauto.
Qed.

Lemma entries_ok_checked l : entries_ok l = true → existsb bad (checked l) = false.
Proof.
  unfold entries_ok, checked. intros H. apply negb_true_iff in H.
  destruct (needs_noop l); [exact H|].
  destruct l as [|x l _] using rev_ind; [reflexivity|].
  rewrite removelast_last. rewrite existsb_app in H.
  apply orb_false_iff in H. tauto.
Qed.

Lemma denotation_right_nested ss :
  scope_denotation (map Obj ss) = right_nested ss.
Proof.
  induction ss as [|s ss IH]; simpl; [reflexivity|].
  rewrite IH. destruct ss; reflexivity.
Qed.

Lemma scan_denotation l :
  foldr wrap_or_seq (final_stmt l) (earlier l) = scope_denotation l.
Proof.
  unfold final_stmt, earlier, with_noop, needs_noop.
  destruct l as [|x l _] using rev_ind; [reflexivity|].
  rewrite last_snoc. destruct x as [o|f]; simpl.
  - rewrite last_snoc, removelast_last, denotation_snoc_obj. reflexivity.
  - rewrite last_snoc, removelast_last, denotation_snoc_fn. reflexivity.
Qed.

(** ** Steps of the builder monad *)

Lemma bind_ok {A B} (m : M A) (k : A → M B) w a w' :
  m w = (Ok a, w') → bind m k w = k a w'.
Proof. unfold bind. intros ->. reflexivity. Qed.

Lemma bind_raise {A B} (m : M A) (k : A → M B) w e w' :
  m w = (Raise e, w') → bind m k w = (Raise e, w').
Proof. unfold bind. intros ->. reflexivity. Qed.

Lemma deref_ok w r o : heap w !! r = Some o → deref r w = (Ok o, w).
Proof. unfold deref. intros ->. reflexivity. Qed.

Lemma update_ok w r o f :
  heap w !! r = Some o →
  update r f w = (Ok tt, set_heap (<[r := f o]> (heap w)) w).
Proof.
  intros H. unfold update. rewrite (bind_ok _ _ _ _ _ (deref_ok _ _ _ H)).
  reflexivity.
Qed.

Lemma get_current_ok w cur c :
  _current w = cur ++ [c] → get_current w = (Ok c, w).
Proof. unfold get_current. intros ->. rewrite last_snoc. reflexivity. Qed.

Lemma emit_ok w self o rest top e :
  heap w !! self = Some o → has_break o = false →
  stmt_stack o = rest ++ [top] →
  emit self e w =
  (Ok tt,
   set_heap (<[self := set_stmt_stack (rest ++ [top ++ [e]]) o]> (heap w)) w).
Proof.
  intros H Hb Hs. unfold emit.
  rewrite (bind_ok _ _ _ _ _ (deref_ok _ _ _ H)), Hb, Hs.
  rewrite last_snoc, removelast_last. apply update_ok, H.
Qed.

Lemma emit_broken w self o e :
  heap w !! self = Some o → has_break o = true →
  emit self e w = (Raise IllegalEmitAfterBreak, w).
Proof.
  intros H Hb. unfold emit.
  rewrite (bind_ok _ _ _ _ _ (deref_ok _ _ _ H)), Hb. reflexivity.
Qed.

Lemma push_scope_ok w self o :
  heap w !! self = Some o →
  push_scope self w =
  (Ok tt, set_heap (<[self := set_stmt_stack (stmt_stack o ++ [[]]) o]> (heap w)) w).
Proof.
  intros H. unfold push_scope.
  exact (update_ok w self o (λ o, set_stmt_stack (stmt_stack o ++ [[]]) o) H).
Qed.

Lemma pop_stmt_step w self o rest l :
  heap w !! self = Some o → stmt_stack o = rest ++ [l] →
  pop_stmt self w =
  (fold_stmts l, set_heap (<[self := set_stmt_stack rest o]> (heap w)) w).
Proof.
  intros H Hs. unfold pop_stmt.
  rewrite (bind_ok _ _ _ _ _ (deref_ok _ _ _ H)), Hs.
  rewrite last_snoc, removelast_last.
  rewrite (bind_ok _ _ _ _ _ (update_ok _ _ _ _ H)).
  destruct (fold_stmts l); reflexivity.
Qed.

(** Inversion of the steps *)

Lemma bind_inv {A B} (m : M A) (k : A → M B) w b w' :
  bind m k w = (Ok b, w') → ∃ a w1, m w = (Ok a, w1) ∧ k a w1 = (Ok b, w').
Proof.
  unfold bind. destruct (m w) as [[a|e] w1]; [eauto|discriminate].
Qed.

Lemma update_inv r f w w' :
  update r f w = (Ok tt, w') →
  ∃ o, heap w !! r = Some o ∧ w' = set_heap (<[r := f o]> (heap w)) w.
Proof.
  unfold update, bind, deref. destruct (heap w !! r) as [o|]; [|discriminate].
  intros [= <-]. eauto.
Qed.

Lemma emit_inv self e w w' :
  emit self e w = (Ok tt, w') →
  ∃ o rest top,
    heap w !! self = Some o ∧ has_break o = false ∧
    stmt_stack o = rest ++ [top] ∧
    w' = set_heap (<[self := set_stmt_stack (rest ++ [top ++ [e]]) o]> (heap w)) w.
Proof.
  unfold emit. intros H. apply bind_inv in H as (o & w1 & Hd & H).
  unfold deref in Hd. destruct (heap w !! self) as [o'|] eqn:E; [|discriminate].
  injection Hd as -> ->.
  destruct (has_break o) eqn:Hb; [discriminate|].
  destruct (stmt_stack o) as [|x l] eqn:Hs using rev_ind; [discriminate|].
  rewrite last_snoc, removelast_last in H.
  rewrite (update_ok _ _ _ _ E) in H. injection H as <-.
  exists o, l, x. auto.
Qed.


Lemma deref_inv r w o w' :
  deref r w = (Ok o, w') → heap w !! r = Some o ∧ w' = w.
Proof.
  unfold deref. destruct (heap w !! r); [|discriminate].
  intros [= -> ->]. auto.
Qed.

Lemma get_current_inv w c w' :
  get_current w = (Ok c, w') → last (_current w) = Some c ∧ w' = w.
Proof.
  unfold get_current. destruct (last (_current w)); [|discriminate].
  intros [= -> ->]. auto.
Qed.

Lemma pop_stmt_inv self w body w' :
  pop_stmt self w = (Ok body, w') →
  ∃ o rest l, heap w !! self = Some o ∧ stmt_stack o = rest ++ [l] ∧
              fold_stmts l = Ok body ∧
              w' = set_heap (<[self := set_stmt_stack rest o]> (heap w)) w.
Proof.
  unfold pop_stmt. intros H.
  apply bind_inv in H as (o & w1 & Hd & H). apply deref_inv in Hd as [Ho ->].
  destruct (stmt_stack o) as [|l rest _] eqn:Hs using rev_ind; [discriminate|].
  rewrite last_snoc, removelast_last in H.
  rewrite (bind_ok _ _ _ _ _ (update_ok _ _ _ _ Ho)) in H.
  destruct (fold_stmts l) as [b|e] eqn:Hf; [|discriminate].
  injection H as -> <-. exists o, rest, l. auto.
Qed.

(** C2: [pop_stmt] removes the top scope list and returns one statement:
    with the no-op appended when the list is empty or ends in a deferred
    wrapper, it starts from the last statement and scans the earlier
    entries from the right, applying each wrapper to the running result
    and putting each concrete statement in sequence before it.  So
    [S1, wrapper(w), S2] folds to [Block S1 (w S2)], and a list of
    concrete statements folds to the right-nested sequence in emission
    order. *)
Theorem pop_stmt_folds_scope (w : World) (self : nat) (o : KStmtObj)
  (rest : list (list entry)) (l : list entry) :
  heap w !! self = Some o →
  stmt_stack o = rest ++ [l] →
  entries_ok l = true →
  pop_stmt self w =
    (Ok (foldr wrap_or_seq (final_stmt l) (earlier l)),
     set_heap (<[self := set_stmt_stack rest o]> (heap w)) w)
  ∧ with_noop l = (if bool_decide (l = []) || needs_noop l
                   then l ++ [Obj noop] else l)
  ∧ last (with_noop l) = Some (Obj (final_stmt l))
  ∧ foldr wrap_or_seq (final_stmt l) (earlier l) = scope_denotation l
  ∧ (∀ s1 f s2, l = [Obj s1; Fn f; Obj s2] →
       scope_denotation l = Block s1 (f s2))
  ∧ (∀ ss, l = map Obj ss → scope_denotation l = right_nested ss).
Proof.
  intros H Hs Hok. split; [|split; [|split; [|split; [|split]]]].
  - rewrite (pop_stmt_step _ _ _ _ _ H Hs), fold_stmts_spec.
    rewrite (entries_ok_checked _ Hok), scan_denotation. reflexivity.
  - unfold with_noop. destruct l; reflexivity.
  - unfold final_stmt, with_noop, needs_noop.
    destruct l as [|x l _] using rev_ind; [reflexivity|].
    rewrite last_snoc. destruct x; simpl; rewrite last_snoc; reflexivity.
  - apply scan_denotation.
  - intros s1 f s2 ->. reflexivity.
  - intros ss ->. apply denotation_right_nested.
Qed.

Lemma pop_stmt_folds_scope_witness :
  let o := block_with [[]; [Obj S1; Fn attach; Obj S2]] false 0 in
  pop_stmt 0 (world_of o) =
    (Ok (Block S1 (attach S2)),
     set_heap (<[0%nat := set_stmt_stack [[]] o]> (heap (world_of o)))
       (world_of o)).
Proof.
  intros o.
  exact (proj1 (pop_stmt_folds_scope (world_of o) 0 o [[]]
                  [Obj S1; Fn attach; Obj S2]
                  eq_refl eq_refl eq_refl)).
Defined.

(** ** Emission is unchecked; the fold asserts *)

Lemma checked_two l v e : checked (l ++ [v; e]) = (l ++ [v; e]) ∨
                          checked (l ++ [v; e]) = l ++ [v].
Proof.
  unfold checked. destruct (needs_noop _); [left; reflexivity|right].
  change (l ++ [v; e]) with (l ++ [v] ++ [e]).
  rewrite app_assoc. apply removelast_last.
Qed.

(** C10: [emit] looks at the break flag only and appends whatever it is
    given; the one check is the assertion of [pop_stmt], which fails
    exactly when an entry below the final one is neither callable nor a
    statement node.  So a value that is neither is accepted by [emit],
    makes the fold fail once another entry follows it, and is returned
    unchecked when it is still the final entry at the fold. *)
Theorem emit_unchecked_fold_asserts (w : World) (self : nat) (o : KStmtObj)
  (rest : list (list entry)) (top : list entry) (v : entry) :
  heap w !! self = Some o →
  has_break o = false →
  stmt_stack o = rest ++ [top] →
  emit self v w =
    (Ok tt,
     set_heap (<[self := set_stmt_stack (rest ++ [top ++ [v]]) o]> (heap w)) w)
  ∧ (∀ l, fold_stmts l = Raise (AssertionError "") ↔
          existsb bad (checked l) = true)
  ∧ (∀ l, existsb bad (checked l) = false →
          fold_stmts l = Ok (scope_denotation l))
  ∧ (bad v = true → ∀ e, fold_stmts (top ++ [v; e]) = Raise (AssertionError ""))
  ∧ (bad v = true → entries_ok top = true →
     ∃ x, v = Obj x ∧ is_Stmt x = false ∧
          fold_stmts (top ++ [v]) = Ok (foldr wrap_or_seq x top)).
Proof.
  intros H Hb Hs. split; [|split; [|split; [|split]]].
  - apply (emit_ok _ _ _ _ _ _ H Hb Hs).
  - intros l. rewrite fold_stmts_spec.
    destruct (existsb bad (checked l)); split; congruence.
  - intros l Hl. rewrite fold_stmts_spec, Hl. reflexivity.
  - intros Hv e. rewrite fold_stmts_spec.
    destruct (checked_two top v e) as [-> | ->].
    + rewrite existsb_app. simpl. rewrite Hv, orb_true_r. reflexivity.
    + rewrite existsb_app. simpl. rewrite Hv, orb_true_r. reflexivity.
  - intros Hv Hok. destruct v as [x|f]; [|discriminate].
    exists x. simpl in Hv. apply negb_true_iff in Hv.
    split; [reflexivity|split; [exact Hv|]].
    rewrite fold_stmts_spec. unfold checked, needs_noop.
    rewrite last_snoc. simpl. rewrite removelast_last.
    unfold entries_ok in Hok. apply negb_true_iff in Hok. rewrite Hok.
    rewrite denotation_snoc_obj. reflexivity.
Qed.

Lemma emit_unchecked_fold_asserts_witness :
  let o := block_with [[Obj S1]] false 0 in
  emit 0 (Obj (Opaque 7)) (world_of o) =
    (Ok tt,
     set_heap (<[0%nat := set_stmt_stack [[Obj S1; Obj (Opaque 7)]] o]>
                 (heap (world_of o))) (world_of o))
  ∧ fold_stmts [Obj S1; Obj (Opaque 7); Obj S2] = Raise (AssertionError "")
  ∧ fold_stmts [Obj S1; Obj (Opaque 7)] = Ok (Block S1 (Opaque 7)).
Proof.
  intros o.
  pose proof (emit_unchecked_fold_asserts (world_of o) 0 o [] [Obj S1]
                (Obj (Opaque 7)) eq_refl eq_refl eq_refl) as T.
  split; [exact (proj1 T)|split].
  - exact (proj1 (proj2 (proj2 (proj2 T))) eq_refl (Obj S2)).
  - reflexivity.
Defined.

(** ** Closing a block *)

Ltac heap_lookup :=
  cbn [heap set_heap set_current set_registry _current];
  repeat first [rewrite lookup_insert_eq
               | rewrite lookup_insert_ne by congruence];
  first [eassumption | reflexivity].
Ltac step_update := erewrite bind_ok; [|apply update_ok; heap_lookup].
Ltac step_deref := erewrite bind_ok; [|apply deref_ok; heap_lookup].

Lemma pop_current_ok w cur c :
  _current w = cur ++ [c] → pop_current w = (Ok tt, set_current cur w).
Proof.
  unfold pop_current. intros H. rewrite H.
  destruct (cur ++ [c]) eqn:E.
  - destruct cur; discriminate.
  - rewrite <- E, removelast_last. reflexivity.
Qed.

(** [__exit__] of a block whose parent is open: the run, step by step *)
Lemma exit_with_parent w self parent cur so po rest top body prest ptop :
  _current w = cur ++ [parent; self] → parent ≠ self →
  heap w !! self = Some so → heap w !! parent = Some po →
  stmt_stack so = rest ++ [top] → fold_stmts top = Ok body →
  has_break po = false → stmt_stack po = prest ++ [ptop] →
  ∃ w' so' po',
    KStmt__exit__ self w = (Ok tt, w') ∧
    _current w' = cur ++ [parent] ∧
    (∀ r, r ≠ self → r ≠ parent → heap w' !! r = heap w !! r) ∧
    heap w' !! self = Some so' ∧ heap w' !! parent = Some po' ∧
    input_KStmts so' = last_subKStmts so ∪ input_KStmts so ∧
    last_subKStmts so' = last_subKStmts so ∧
    input_KStmts po' =
      (input_KStmts po ∪ input_KStmts so') ∖ last_subKStmts po ∧
    last_subKStmts po' =
      (last_subKStmts po ∪ {[self]}) ∖ input_KStmts so' ∧
    has_break po' = false ∧
    stmt_stack po' =
      prest ++ [ptop ++ [Fn (λ x, AttrStmt (_buf so) "attach_scope"
                                    (StringImm (name po)) x)]].
Proof.
  intros Hc Hne Hs Hp Hss Hf Hb Hps.
  unfold KStmt__exit__.
  step_update. step_deref.
  erewrite bind_ok;
    [|erewrite pop_stmt_step;
      [rewrite Hf; reflexivity|heap_lookup|cbn; exact Hss]].
  erewrite bind_ok;
    [|apply (pop_current_ok _ (cur ++ [parent]) self); cbn;
      rewrite Hc, <- app_assoc; reflexivity].
  step_update.
  erewrite bind_ok; [|reflexivity]. cbn [_current set_current set_heap].
  rewrite last_snoc.
  step_deref. step_deref.
  erewrite bind_ok; [|eapply emit_ok; [heap_lookup|exact Hb|exact Hps]].
  step_deref.
  do 3 step_update. step_deref. step_update. step_deref. step_update.
  step_deref. step_update. step_deref. step_update.
  erewrite update_ok; [|heap_lookup].
  eexists _, _, _. split; [reflexivity|].
  cbn [heap set_heap _current set_current].
  split; [reflexivity|].
  split. { intros r H1 H2. rewrite !lookup_insert_ne by congruence. reflexivity. }
  split. { rewrite lookup_insert_ne by congruence. rewrite lookup_insert_eq. reflexivity. }
  split. { rewrite lookup_insert_eq. reflexivity. }
  cbn. repeat split; first [reflexivity | assumption].
Qed.

(** [__exit__] of a block with no open parent *)
Lemma exit_top_level w self so rest top body :
  _current w = [self] →
  heap w !! self = Some so →
  stmt_stack so = rest ++ [top] → fold_stmts top = Ok body →
  ∃ w' so',
    KStmt__exit__ self w = (Ok tt, w') ∧
    _current w' = [] ∧
    heap w' !! self = Some so' ∧
    input_KStmts so' = last_subKStmts so ∪ input_KStmts so ∧
    last_subKStmts so' = last_subKStmts so ∧
    KStmt_ops w' = KStmt_ops w ++ [self] ∧
    last_KStmts w' = (last_KStmts w ∪ {[self]}) ∖ input_KStmts so'.
Proof.
  intros Hc Hs Hss Hf.
  unfold KStmt__exit__.
  step_update. step_deref.
  erewrite bind_ok;
    [|erewrite pop_stmt_step;
      [rewrite Hf; reflexivity|heap_lookup|cbn; exact Hss]].
  erewrite bind_ok;
    [|apply (pop_current_ok _ [] self); cbn; rewrite Hc; reflexivity].
  step_update.
  erewrite bind_ok; [|reflexivity]. cbn [_current set_current set_heap last].
  step_deref.
  eexists _, _. split; [reflexivity|].
  cbn. split; [reflexivity|].
  split. { rewrite lookup_insert_eq. reflexivity. }
  repeat split; reflexivity.
Qed.

(** A close that returns found what it needs: a scope of the closing
    block that folds, and a parent that accepts the wrapper. *)
Lemma exit_preconditions w self parent cur w' :
  _current w = cur ++ [parent; self] → parent ≠ self →
  KStmt__exit__ self w = (Ok tt, w') →
  ∃ so po rest top body prest ptop,
    heap w !! self = Some so ∧ heap w !! parent = Some po ∧
    stmt_stack so = rest ++ [top] ∧ fold_stmts top = Ok body ∧
    has_break po = false ∧ stmt_stack po = prest ++ [ptop].
Proof.
  intros Hc Hne H. unfold KStmt__exit__ in H.
  apply bind_inv in H as ([] & w1 & Hu & H).
  apply update_inv in Hu as (so & Hso & ->).
  apply bind_inv in H as (o1 & w1 & Hd & H). apply deref_inv in Hd as [_ ->].
  apply bind_inv in H as (body & w1 & Hp & H).
  apply pop_stmt_inv in Hp as (o2 & rest & top & Ho2 & Hs2 & Hf & ->).
  cbn in Ho2. rewrite lookup_insert_eq in Ho2. injection Ho2 as <-.
  cbn in Hs2.
  apply bind_inv in H as ([] & w1 & Hpc & H).
  rewrite (pop_current_ok _ (cur ++ [parent]) self) in Hpc
    by (cbn; rewrite Hc, <- app_assoc; reflexivity).
  injection Hpc as <-.
  apply bind_inv in H as ([] & w1 & Hu & H).
  apply update_inv in Hu as (o3 & _ & ->).
  apply bind_inv in H as (cur' & w1 & Hcur & H).
  injection Hcur as <- <-. cbn [_current set_current set_heap] in H.
  rewrite last_snoc in H.
  apply bind_inv in H as (po & w1 & Hd & H). apply deref_inv in Hd as [Hpo ->].
  cbn in Hpo. rewrite !lookup_insert_ne in Hpo by congruence.
  apply bind_inv in H as (o4 & w1 & Hd & H). apply deref_inv in Hd as [_ ->].
  apply bind_inv in H as ([] & w1 & He & _).
  apply emit_inv in He as (po' & prest & ptop & Hpo' & Hb & Hps & _).
  cbn in Hpo'. rewrite !lookup_insert_ne in Hpo' by congruence.
  rewrite Hpo in Hpo'. injection Hpo' as <-.
  exists so, po, rest, top, body, prest, ptop. auto 10.
Qed.

Lemma exit_top_preconditions w self w' :
  _current w = [self] →
  KStmt__exit__ self w = (Ok tt, w') →
  ∃ so rest top body,
    heap w !! self = Some so ∧
    stmt_stack so = rest ++ [top] ∧ fold_stmts top = Ok body.
Proof.
  intros Hc H. unfold KStmt__exit__ in H.
  apply bind_inv in H as ([] & w1 & Hu & H).
  apply update_inv in Hu as (so & Hso & ->).
  apply bind_inv in H as (o1 & w1 & Hd & H). apply deref_inv in Hd as [_ ->].
  apply bind_inv in H as (body & w1 & Hp & H).
  apply pop_stmt_inv in Hp as (o2 & rest & top & Ho2 & Hs2 & Hf & ->).
  cbn in Ho2. rewrite lookup_insert_eq in Ho2. injection Ho2 as <-.
  cbn in Hs2. exists so, rest, top, body. auto.
Qed.

(** What a close that returns has done to the closing block and to its
    parent *)
Lemma exit_with_parent_sets w self parent cur w' :
  _current w = cur ++ [parent; self] → parent ≠ self →
  KStmt__exit__ self w = (Ok tt, w') →
  ∃ so po so' po',
    heap w !! self = Some so ∧ heap w !! parent = Some po ∧
    heap w' !! self = Some so' ∧ heap w' !! parent = Some po' ∧
    input_KStmts so' = last_subKStmts so ∪ input_KStmts so ∧
    last_subKStmts so' = last_subKStmts so ∧
    input_KStmts po' =
      (input_KStmts po ∪ input_KStmts so') ∖ last_subKStmts po ∧
    last_subKStmts po' =
      (last_subKStmts po ∪ {[self]}) ∖ input_KStmts so'.
Proof.
  intros Hc Hne H.
  destruct (exit_preconditions _ _ _ _ _ Hc Hne H)
    as (so & po & rest & top & body & prest & ptop
        & Hs & Hp & Hss & Hf & Hb & Hps).
  destruct (exit_with_parent w self parent cur so po rest top body prest
              ptop Hc Hne Hs Hp Hss Hf Hb Hps)
    as (w'' & so' & po' & E & _ & _ & Hs' & Hp' & Hi & Hl & Hpi & Hpl & _).
  rewrite E in H. injection H as <-.
  exists so, po, so', po'. auto 10.
Qed.

Lemma with_KStmt_pass w s w' :
  KStmt__exit__ s (set_current (_current w ++ [s]) w) = (Ok tt, w') →
  with_KStmt s (ret tt) w = (Ok tt, w').
Proof.
  intros H. unfold with_KStmt, KStmt__enter__, bind, with_exit, ret.
  rewrite H. reflexivity.
Qed.

(** Two children with empty dependency sets, closed one after the other
    in a parent whose sets are empty *)
Lemma siblings_close w P A B cur po ao bo prest ptop arest atop abody
  brest btop bbody :
  _current w = cur ++ [P] → P ≠ A → P ≠ B → A ≠ B →
  heap w !! P = Some po → heap w !! A = Some ao → heap w !! B = Some bo →
  input_KStmts po = ∅ → last_subKStmts po = ∅ →
  input_KStmts ao = ∅ → last_subKStmts ao = ∅ →
  input_KStmts bo = ∅ → last_subKStmts bo = ∅ →
  has_break po = false → stmt_stack po = prest ++ [ptop] →
  stmt_stack ao = arest ++ [atop] → fold_stmts atop = Ok abody →
  stmt_stack bo = brest ++ [btop] → fold_stmts btop = Ok bbody →
  ∃ w' po',
    close_siblings A B w = (Ok tt, w') ∧
    heap w' !! P = Some po' ∧
    last_subKStmts po' = {[A; B]} ∧
    (A ∉ input_KStmts po') ∧ (B ∉ input_KStmts po').
Proof.
  intros Hc HPA HPB HAB Hp Ha Hb Hpi Hpl Hai Hal Hbi Hbl Hhb Hps Has Haf
    Hbs Hbf.
  destruct (exit_with_parent (set_current (_current w ++ [A]) w) A P cur
              ao po arest atop abody prest ptop)
    as (w1 & ao1 & po1 & E1 & Hc1 & Hfr1 & Ha1 & Hp1 & Hi1 & Hl1 & Hpi1
        & Hpl1 & Hhb1 & Hps1); try assumption.
  { cbn. rewrite Hc, <- app_assoc. reflexivity. }
  assert (Hb1 : heap w1 !! B = Some bo).
  { rewrite Hfr1 by congruence. exact Hb. }
  edestruct (exit_with_parent (set_current (_current w1 ++ [B]) w1) B P cur
              bo po1 brest btop bbody prest)
    as (w2 & bo2 & po2 & E2 & Hc2 & Hfr2 & Hb2 & Hp2 & Hi2 & Hl2 & Hpi2
        & Hpl2 & Hhb2 & Hps2); try eassumption.
  { cbn. rewrite Hc1, <- app_assoc. reflexivity. }
  exists w2, po2. split.
  - unfold close_siblings.
    rewrite (bind_ok _ _ _ _ _ (with_KStmt_pass _ _ _ E1)).
    apply with_KStmt_pass, E2.
  - split; [exact Hp2|].
    rewrite Hpl2, Hpi2, Hi2, Hpl1, Hpi1, Hi1, Hpi, Hpl, Hai, Hal, Hbi, Hbl.
    clear. set_solver.
Qed.

(** C3: whenever a block closes while its parent is open, the parent's
    sets become [(input ∪ self.input) ∖ last_writers] and
    [(last_writers ∪ {self}) ∖ self.input], where [self.input] is the
    closing block's set as its own close has just reconciled it
    ([last_writers ∪ input]); and the close returns when the block's scope
    folds and the parent accepts the wrapper.  Hence a parent with empty
    sets whose children [A] and [B], both with empty sets, close in that
    order ends with last writers [{A, B}] and neither child among its
    inputs. *)
Theorem exit_reconciles_parent :
  (∀ w self parent cur w',
     _current w = cur ++ [parent; self] → parent ≠ self →
     KStmt__exit__ self w = (Ok tt, w') →
     ∃ so po so' po',
       heap w !! self = Some so ∧ heap w !! parent = Some po ∧
       heap w' !! self = Some so' ∧ heap w' !! parent = Some po' ∧
       input_KStmts so' = last_subKStmts so ∪ input_KStmts so ∧
       input_KStmts po' =
         (input_KStmts po ∪ input_KStmts so') ∖ last_subKStmts po ∧
       last_subKStmts po' =
         (last_subKStmts po ∪ {[self]}) ∖ input_KStmts so')
  ∧ (∀ w self parent cur so po rest top body prest ptop,
       _current w = cur ++ [parent; self] → parent ≠ self →
       heap w !! self = Some so → heap w !! parent = Some po →
       stmt_stack so = rest ++ [top] → fold_stmts top = Ok body →
       has_break po = false → stmt_stack po = prest ++ [ptop] →
       ∃ w', KStmt__exit__ self w = (Ok tt, w'))
  ∧ (∀ w P A B cur po ao bo prest ptop arest atop abody brest btop bbody,
       _current w = cur ++ [P] → P ≠ A → P ≠ B → A ≠ B →
       heap w !! P = Some po → heap w !! A = Some ao →
       heap w !! B = Some bo →
       input_KStmts po = ∅ → last_subKStmts po = ∅ →
       input_KStmts ao = ∅ → last_subKStmts ao = ∅ →
       input_KStmts bo = ∅ → last_subKStmts bo = ∅ →
       has_break po = false → stmt_stack po = prest ++ [ptop] →
       stmt_stack ao = arest ++ [atop] → fold_stmts atop = Ok abody →
       stmt_stack bo = brest ++ [btop] → fold_stmts btop = Ok bbody →
       ∃ w' po',
         close_siblings A B w = (Ok tt, w') ∧
         heap w' !! P = Some po' ∧
         last_subKStmts po' = {[A; B]} ∧
         (A ∉ input_KStmts po') ∧ (B ∉ input_KStmts po')).
Proof.
  split; [|split].
  - intros w self parent cur w' Hc Hne H.
    destruct (exit_with_parent_sets _ _ _ _ _ Hc Hne H)
      as (so & po & so' & po' & Hs & Hp & Hs' & Hp' & Hi & _ & Hpi & Hpl).
    exists so, po, so', po'. auto 10.
  - intros w self parent cur so po rest top body prest ptop
      Hc Hne Hs Hp Hss Hf Hb Hps.
    destruct (exit_with_parent w self parent cur so po rest top body prest
                ptop Hc Hne Hs Hp Hss Hf Hb Hps) as (w' & _ & _ & E & _).
    exists w'. exact E.
  - intros. eapply siblings_close; eassumption.
Qed.

Lemma exit_reconciles_parent_witness :
  (∃ so po so' po',
     heap closing_world !! 1%nat = Some so ∧
     heap closing_world !! 0%nat = Some po ∧
     heap (KStmt__exit__ 1 closing_world).2 !! 1%nat = Some so' ∧
     heap (KStmt__exit__ 1 closing_world).2 !! 0%nat = Some po' ∧
     input_KStmts so' = last_subKStmts so ∪ input_KStmts so ∧
     input_KStmts po' =
       (input_KStmts po ∪ input_KStmts so') ∖ last_subKStmts po ∧
     last_subKStmts po' =
       (last_subKStmts po ∪ {[1%nat]}) ∖ input_KStmts so')
  ∧ (∃ w' po',
       close_siblings 1 2 family_world = (Ok tt, w') ∧
       heap w' !! 0%nat = Some po' ∧
       last_subKStmts po' = {[1%nat; 2%nat]} ∧
       (1%nat ∉ input_KStmts po') ∧ (2%nat ∉ input_KStmts po')).
Proof.
  split.
  - refine (proj1 exit_reconciles_parent closing_world 1%nat 0%nat []
              (KStmt__exit__ 1 closing_world).2 eq_refl ltac:(lia) _).
    vm_compute. reflexivity.
  - exact (proj2 (proj2 exit_reconciles_parent) family_world 0%nat 1%nat
             2%nat [] (fresh_block "P") (fresh_block "A") (fresh_block "B")
             [] [] [] [] noop [] [] noop
             eq_refl ltac:(lia) ltac:(lia) ltac:(lia) eq_refl eq_refl eq_refl
             eq_refl eq_refl eq_refl eq_refl eq_refl eq_refl eq_refl eq_refl
             eq_refl eq_refl eq_refl eq_refl).
Defined.

(** C4, as stated, fails for the block that closes.  In [closing_world]
    the blocks [P] (reference 0) and [A] (reference 1) are open, [A]
    inside [P], and every dependency set is empty.  Leaving
    [with P: with A: pass] closes [A] and then [P], both closes return,
    and [P] then has [A] both among its inputs and among its last
    writers. *)
Lemma closing_block_sets_overlap :
  sets_disjoint (fresh_block "P") ∧ sets_disjoint (fresh_block "A")
  ∧ (close_nested closing_world).1 = Ok tt
  ∧ ∃ o, heap (close_nested closing_world).2 !! 0%nat = Some o
         ∧ input_KStmts o ∩ last_subKStmts o = {[1%nat]}
         ∧ ¬ sets_disjoint o.
Proof.
  split; [vm_compute; reflexivity|]. split; [vm_compute; reflexivity|].
  split; [vm_compute; reflexivity|].
  assert (E : (λ o, input_KStmts o ∩ last_subKStmts o)
                <$> heap (close_nested closing_world).2 !! 0%nat
              = Some {[1%nat]}) by (vm_compute; reflexivity).
  destruct (heap (close_nested closing_world).2 !! 0%nat) as [o|];
    [|discriminate E].
  injection E as E. exists o. split; [reflexivity|]. split; [exact E|].
  unfold sets_disjoint. rewrite E. intros H. vm_compute in H. discriminate H.
Qed.

(** C4, amended: after a close that returns, the closing block's inputs
    have absorbed its last writers, so the two sets meet exactly in the
    last writers; the parent that absorbs the block has sets that can
    meet in the closing block only, and are disjoint when the closing
    block was not already one of the parent's inputs. *)
Theorem exit_sets_after_close :
  (∀ w self parent cur w',
     _current w = cur ++ [parent; self] → parent ≠ self →
     KStmt__exit__ self w = (Ok tt, w') →
     ∃ so po so' po',
       heap w !! self = Some so ∧ heap w !! parent = Some po ∧
       heap w' !! self = Some so' ∧ heap w' !! parent = Some po' ∧
       input_KStmts so' ∩ last_subKStmts so' = last_subKStmts so ∧
       input_KStmts po' ∩ last_subKStmts po' ⊆ {[self]} ∧
       (self ∉ input_KStmts po → sets_disjoint po'))
  ∧ (∀ w self w',
       _current w = [self] →
       KStmt__exit__ self w = (Ok tt, w') →
       ∃ so so',
         heap w !! self = Some so ∧ heap w' !! self = Some so' ∧
         input_KStmts so' ∩ last_subKStmts so' = last_subKStmts so).
Proof.
  split.
  - intros w self parent cur w' Hc Hne H.
    destruct (exit_with_parent_sets _ _ _ _ _ Hc Hne H)
      as (so & po & so' & po' & Hs & Hp & Hs' & Hp' & Hi & Hl & Hpi & Hpl).
    exists so, po, so', po'. unfold sets_disjoint.
    repeat split; try assumption.
    + rewrite Hi, Hl. clear. set_solver.
    + rewrite Hpi, Hpl. clear. set_solver.
    + intros Hnot. rewrite Hpi, Hpl. clear -Hnot. set_solver.
  - intros w self w' Hc H.
    destruct (exit_top_preconditions _ _ _ Hc H)
      as (so & rest & top & body & Hs & Hss & Hf).
    destruct (exit_top_level w self so rest top body Hc Hs Hss Hf)
      as (w'' & so' & E & _ & Hs' & Hi & Hl & _).
    rewrite E in H. injection H as <-.
    exists so, so'. repeat split; try assumption.
    rewrite Hi, Hl. clear. set_solver.
Qed.

Lemma exit_sets_after_close_witness :
  ∃ so po so' po',
    heap closing_world !! 1%nat = Some so ∧
    heap closing_world !! 0%nat = Some po ∧
    heap (KStmt__exit__ 1 closing_world).2 !! 1%nat = Some so' ∧
    heap (KStmt__exit__ 1 closing_world).2 !! 0%nat = Some po' ∧
    input_KStmts so' ∩ last_subKStmts so' = last_subKStmts so ∧
    input_KStmts po' ∩ last_subKStmts po' ⊆ {[1%nat]} ∧
    (1%nat ∉ input_KStmts po → sets_disjoint po').
Proof.
  refine (proj1 exit_sets_after_close closing_world 1%nat 0%nat []
            (KStmt__exit__ 1 closing_world).2 eq_refl ltac:(lia) _).
  vm_compute. reflexivity.
Defined.

(** ** Entering [else_] and [elif_] *)

Lemma prev_entry_ok w c o rest top' prev err :
  heap w !! c = Some o → stmt_stack o = rest ++ [top' ++ [prev]] →
  prev_entry c err w = (Ok prev, w).
Proof.
  intros H Hs. unfold prev_entry.
  rewrite (bind_ok _ _ _ _ _ (deref_ok _ _ _ H)), Hs.
  rewrite !last_snoc. reflexivity.
Qed.


Lemma pop_entry_ok w c o rest top' prev :
  heap w !! c = Some o → stmt_stack o = rest ++ [top' ++ [prev]] →
  pop_entry c w =
  (Ok tt, set_heap (<[c := set_stmt_stack (rest ++ [top']) o]> (heap w)) w).
Proof.
  intros H Hs. unfold pop_entry.
  rewrite (bind_ok _ _ _ _ _ (deref_ok _ _ _ H)), Hs.
  rewrite last_snoc, !removelast_last.
  destruct (top' ++ [prev]) eqn:E; [destruct top'; discriminate|].
  apply update_ok, H.
Qed.




(** ** Break and emission *)

Lemma break_inv w w' :
  break_ w = (Ok tt, w') →
  ∃ c o', last (_current w') = Some c ∧ heap w' !! c = Some o' ∧
          has_break o' = true.
Proof.
  unfold break_. intros H.
  apply bind_inv in H as (c & w1 & Hc & H).
  pose proof Hc as Hc'. apply get_current_inv in Hc' as [Hl ->].
  apply bind_inv in H as (o & w1 & Hd & H).
  apply deref_inv in Hd as [Ho ->].
  destruct (for_level o =? 0); [discriminate|].
  rewrite (bind_ok _ _ _ _ _ Hc) in H.
  apply bind_inv in H as ([] & w2 & He & H).
  apply emit_inv in He as (o1 & rest & top & Ho1 & _ & _ & ->).
  apply bind_inv in H as (c' & w3 & Hc3 & H).
  apply get_current_inv in Hc3 as [Hl3 ->].
  cbn in Hl3. rewrite Hl in Hl3. injection Hl3 as <-.
  apply update_inv in H as (o2 & Ho2 & ->).
  exists c, (set_has_break true o2). cbn.
  rewrite Hl, lookup_insert_eq. auto.
Qed.

Lemma with_exit_ok {B} (body : M B) (exit : M unit) w b w1 w2 :
  body w = (Ok b, w1) → exit w1 = (Ok tt, w2) →
  with_exit body exit w = (Ok b, w2).
Proof. unfold with_exit. intros -> ->. reflexivity. Qed.

Ltac step_cur Hc := erewrite bind_ok; [|eapply get_current_ok; cbn; exact Hc].

Lemma break_then_sibling_ok w cur c o rest top a b s :
  _current w = cur ++ [c] → heap w !! c = Some o →
  for_level o ≠ 0 → has_break o = false → stmt_stack o = rest ++ [top] →
  ∃ w' o',
    break_then_sibling a b s w = (Ok tt, w') ∧
    heap w' !! c = Some o' ∧ has_break o' = false ∧
    stmt_stack o' =
      rest ++ [top ++ [Obj (IfThenElse a Break None);
                       Obj (IfThenElse b s None)]].
Proof.
  intros Hc Ho Hl Hb Hs. apply Z.eqb_neq in Hl.
  unfold break_then_sibling, with_.
  erewrite bind_ok; cycle 1.
  { erewrite bind_ok; cycle 1.
    { unfold if_. step_cur Hc. step_update. reflexivity. }
    cbn [enter_value exit_cb].
    eapply with_exit_ok.
    - unfold break_. step_cur Hc. step_deref.
      cbn [for_level set_stmt_stack]. rewrite Hl.
      step_cur Hc.
      erewrite bind_ok; [|eapply emit_ok; [heap_lookup|exact Hb|reflexivity]].
      step_cur Hc. apply update_ok. heap_lookup.
    - unfold if_exit_cb.
      erewrite bind_ok; [|erewrite pop_stmt_step; [|heap_lookup|reflexivity]; reflexivity].
      unfold clear_has_break. step_update.
      eapply emit_ok; [heap_lookup|reflexivity|cbn; exact Hs]. }
  erewrite bind_ok; cycle 1.
  { unfold if_. step_cur Hc. step_update. reflexivity. }
  cbn [enter_value exit_cb].
  eexists _, _. split.
  - eapply with_exit_ok.
    + unfold emit_stmt. step_cur Hc.
      eapply emit_ok; [heap_lookup|reflexivity|reflexivity].
    + unfold if_exit_cb.
      erewrite bind_ok; [|erewrite pop_stmt_step; [|heap_lookup|reflexivity]; reflexivity].
      unfold clear_has_break. step_update.
      eapply emit_ok; [heap_lookup|reflexivity|reflexivity].
  - cbn. rewrite lookup_insert_eq. split; [reflexivity|]. cbn.
    split; [reflexivity|]. rewrite <- app_assoc. reflexivity.
Qed.

(** ** The for loop *)

(** The exit callback of [for_], in general: nothing is popped or folded,
    the loop node goes on top of the loop's own scope with the block
    itself as body, and the attributes of the instance stay as they are;
    only the class attributes change. *)
Lemma for_exit_cb_run w ukg_stmt o rest top lv b e kind k n :
  kind_id kind = Ok k → cls_for_level w = Some n →
  heap w !! ukg_stmt = Some o → has_break o = false →
  stmt_stack o = rest ++ [top] →
  for_exit_cb ukg_stmt lv b e kind w =
  (Ok tt,
   set_heap
     (<[ukg_stmt :=
          set_stmt_stack
            (rest ++ [top ++ [Obj (For lv b e k (KStmtRef ukg_stmt))]]) o]>
        (heap w))
     (set_cls_for_level (Some (n + 1)) (set_cls_has_break (Some false) w))).
Proof.
  intros Hk Hn Ho Hb Hs. unfold for_exit_cb. rewrite Hk.
  erewrite bind_ok; [|reflexivity].
  erewrite bind_ok; [|unfold cls_for_level_incr; cbn; rewrite Hn; reflexivity].
  erewrite emit_ok; [reflexivity|cbn; exact Ho|exact Hb|exact Hs].
Qed.

(** With the break flag set the exit callback of [for_] raises, and the
    flag of the block is still set afterwards. *)
Lemma for_exit_cb_after_break w ukg_stmt o lv b e kind k n :
  kind_id kind = Ok k → cls_for_level w = Some n →
  heap w !! ukg_stmt = Some o → has_break o = true →
  for_exit_cb ukg_stmt lv b e kind w =
  (Raise IllegalEmitAfterBreak,
   set_cls_for_level (Some (n + 1)) (set_cls_has_break (Some false) w)).
Proof.
  intros Hk Hn Ho Hb. unfold for_exit_cb. rewrite Hk.
  erewrite bind_ok; [|reflexivity].
  erewrite bind_ok; [|unfold cls_for_level_incr; cbn; rewrite Hn; reflexivity].
  erewrite emit_broken; [reflexivity|cbn; exact Ho|exact Hb].
Qed.

Lemma emit_raise_inv self e w x w' :
  emit self e w = (Raise x, w') →
  x = IllegalEmitAfterBreak ∨ x = IndexError "list index out of range"
  ∨ x = AttributeError "no such object".
Proof.
  unfold emit, bind, deref.
  destruct (heap w !! self) as [o|] eqn:Ho; [|intros [= <- _]; auto].
  destruct (has_break o); [intros [= <- _]; auto|].
  destruct (last (stmt_stack o)); [|intros [= <- _]; auto].
  rewrite (update_ok _ _ _ _ Ho). discriminate.
Qed.

(** The first half of C5: [break_] raises [BreakOutsideLoop] exactly when
    the loop depth of the current block is 0. *)
Lemma break_outside_loop_iff w cur c o :
  _current w = cur ++ [c] → heap w !! c = Some o →
  (outcome (break_ w) = Raise BreakOutsideLoop ↔ for_level o = 0).
Proof.
  intros Hc Ho. unfold outcome, break_.
  rewrite (bind_ok _ _ _ _ _ (get_current_ok _ _ _ Hc)).
  rewrite (bind_ok _ _ _ _ _ (deref_ok _ _ _ Ho)).
  destruct (Z.eqb_spec (for_level o) 0) as [E|E]; [tauto|].
  split; [|contradiction].
  rewrite (bind_ok _ _ _ _ _ (get_current_ok _ _ _ Hc)).
  destruct (emit c (Obj Break) w) as [[[]|x] w1] eqn:He.
  - rewrite (bind_ok _ _ _ _ _ He).
    apply emit_inv in He as (o1 & rest & top & Ho1 & _ & _ & ->).
    erewrite bind_ok; [|eapply get_current_ok; cbn; exact Hc].
    erewrite update_ok; [|heap_lookup]. discriminate.
  - rewrite (bind_raise _ _ _ _ _ He). cbn.
    apply emit_raise_inv in He as [-> | [-> | ->]]; discriminate.
Qed.

(** ** Function definition *)

Lemma return_run w cur c o rest top v :
  _current w = cur ++ [c] → heap w !! c = Some o →
  has_break o = false → stmt_stack o = rest ++ [top] →
  return_ v w =
  (Ok tt,
   set_heap
     (<[c := set_has_return true
               (set_stmt_stack
                  (rest ++ [top ++ [Obj (Return (Cast (get_tvm_dtype
                                                         (ret_dtype o) None)
                                                   v))]]) o)]>
        (heap w)) w).
Proof.
  intros Hc Ho Hb Hs. unfold return_.
  erewrite bind_ok; [|reflexivity].
  rewrite Hc, length_app. cbn [length].
  rewrite bool_decide_eq_false_2 by lia.
  rewrite (bind_ok _ _ _ _ _ (get_current_ok _ _ _ Hc)).
  rewrite (bind_ok _ _ _ _ _ (deref_ok _ _ _ Ho)).
  rewrite (bind_ok _ _ _ _ _ (emit_ok _ _ _ _ _ _ Ho Hb Hs)).
  erewrite update_ok; [|heap_lookup].
  cbn. rewrite insert_insert_eq. reflexivity.
Qed.


(** * Further properties of the builder *)

(** ** Conditional chains *)

Lemma replace_else_chain_aux n : ∀ p s,
  (chain_length p ≤ n)%nat → is_IfThenElse p = true →
  ∃ r, replace_else p s = Ok r ∧ is_IfThenElse r = true ∧
       branches r = branches p ++ tail_branches s ∧
       final_else r = tail_else s.
Proof.
  induction n as [|n IH]; intros p s Hn Hp.
  - destruct p; try discriminate. simpl in Hn. lia.
  - destruct p as [| |c t e| | | | | | | | | | |]; try discriminate.
    destruct e as [e'|].
    + destruct e' as [| |c' t' e''| | | | | | | | | | |];
        try (eexists; split; [reflexivity|]; split; [reflexivity|];
             unfold tail_branches, tail_else; destruct s; split; reflexivity).
      destruct (IH (IfThenElse c' t' e'') s) as (r & Hr & Hi & Hb & Hf).
      { simpl in Hn |- *. lia. }
      { reflexivity. }
      exists (IfThenElse c t (Some r)).
      change (replace_else (IfThenElse c t (Some (IfThenElse c' t' e''))) s)
        with (match replace_else (IfThenElse c' t' e'') s with
              | Ok r => Ok (IfThenElse c t (Some r))
              | Raise x => Raise x
              end).
      rewrite Hr. split; [reflexivity|]. split; [reflexivity|].
      destruct r as [| |rc rt re| | | | | | | | | | |]; try discriminate.
      split.
      * change (branches (IfThenElse c t (Some (IfThenElse rc rt re))))
          with ((c, t) :: branches (IfThenElse rc rt re)).
        rewrite Hb. reflexivity.
      * exact Hf.
    + eexists; split; [reflexivity|]; split; [reflexivity|].
      unfold tail_branches, tail_else; destruct s; split; reflexivity.
Qed.

(** X1: [replace_else] keeps every branch of the chain it is given, in
    order, and puts the new statement at the end of the chain: as further
    branches when it is itself a conditional, as the final else
    otherwise.  An else that the chain already ended in is dropped.  On
    anything that is not a conditional the assertion fails. *)
Theorem replace_else_extends_chain (p s : pyobj) :
  (is_IfThenElse p = true →
     ∃ r, replace_else p s = Ok r ∧ is_IfThenElse r = true ∧
          branches r = branches p ++ tail_branches s ∧
          final_else r = tail_else s)
  ∧ (is_IfThenElse p = false →
     replace_else p s = Raise (AssertionError "Wrong if statement")).
Proof.
  split.
  - apply (replace_else_chain_aux (chain_length p)). lia.
  - destruct p; try reflexivity. discriminate.
Qed.

Lemma replace_else_extends_chain_witness :
  (∃ r, replace_else chain12 S3 = Ok r ∧ is_IfThenElse r = true ∧
        branches r = [(c1, S1); (c2, S2)] ∧ final_else r = Some S3)
  ∧ replace_else S1 S3 = Raise (AssertionError "Wrong if statement").
Proof.
  split.
  - exact (proj1 (replace_else_extends_chain chain12 S3) eq_refl).
  - exact (proj2 (replace_else_extends_chain S1 S3) eq_refl).
Defined.

(** ** Folding a scope *)

Lemma checked_after_wrapper l1 w l2 :
  checked (l1 ++ Fn w :: l2) = l1 ++ Fn w :: checked l2.
Proof.
  unfold checked, needs_noop.
  destruct l2 as [|y l2 _] using rev_ind.
  - rewrite last_snoc. reflexivity.
  - change (l1 ++ Fn w :: l2 ++ [y]) with (l1 ++ (Fn w :: l2) ++ [y]).
    rewrite app_assoc, !last_snoc.
    destruct (callable y).
    + rewrite <- app_assoc. reflexivity.
    + rewrite !removelast_last. reflexivity.
Qed.

Lemma denotation_after_wrapper l1 w l2 :
  scope_denotation (l1 ++ Fn w :: l2) =
  foldr wrap_or_seq (w (scope_denotation l2)) l1.
Proof.
  induction l1 as [|x l1 IH]; [reflexivity|].
  destruct x as [s|f]; simpl.
  - rewrite IH. destruct l1; reflexivity.
  - rewrite IH. reflexivity.
Qed.

Lemma fold_stmts_ok_inv l x :
  fold_stmts l = Ok x →
  existsb bad (checked l) = false ∧ x = scope_denotation l.
Proof.
  rewrite fold_stmts_spec. destruct (existsb bad (checked l)); [discriminate|].
  intros [= <-]. auto.
Qed.

(** X2: a deferred wrapper in a scope list is applied to the fold of all
    that follows it, and the entries before it are put around the result:
    the fold of [l1 ++ wrapper :: l2] is the fold of [l2], wrapped, with
    the entries of [l1] in sequence before it. *)
Theorem wrapper_wraps_what_follows (l1 l2 : list entry) (w : pyobj → pyobj)
  (x : pyobj) :
  entries_ok l1 = true → fold_stmts l2 = Ok x →
  fold_stmts (l1 ++ Fn w :: l2) = Ok (foldr wrap_or_seq (w x) l1).
Proof.
  intros H1 H2. apply fold_stmts_ok_inv in H2 as [Hb ->].
  rewrite fold_stmts_spec, checked_after_wrapper, existsb_app.
  unfold entries_ok in H1. apply negb_true_iff in H1. rewrite H1.
  simpl. rewrite Hb, denotation_after_wrapper. reflexivity.
Qed.

Lemma wrapper_wraps_what_follows_witness :
  fold_stmts ([Obj S1] ++ Fn attach :: [Obj S2; Obj S3]) =
  Ok (Block S1 (attach (Block S2 S3))).
Proof.
  exact (wrapper_wraps_what_follows [Obj S1] [Obj S2; Obj S3] attach
           (Block S2 S3) eq_refl eq_refl).
Defined.

Lemma right_nested_cons a x l :
  right_nested (a :: x :: l) = Block a (right_nested (x :: l)).
Proof. reflexivity. Qed.

Lemma flatten_right_nested ss s :
  is_Block s = false → flatten_seq (right_nested (ss ++ [s])) = ss ++ [s].
Proof.
  intros Hs. induction ss as [|a ss IH].
  - simpl. destruct s; try reflexivity. discriminate.
  - change ((a :: ss) ++ [s]) with (a :: (ss ++ [s])).
    destruct (ss ++ [s]) as [|x l] eqn:E; [destruct ss; discriminate|].
    rewrite right_nested_cons.
    change (flatten_seq (Block a (right_nested (x :: l))))
      with (a :: flatten_seq (right_nested (x :: l))).
    rewrite IH. reflexivity.
Qed.

Lemma entries_ok_map_Obj ss :
  forallb is_Stmt ss = true → entries_ok (map Obj ss) = true.
Proof.
  unfold entries_ok. intros H. apply negb_true_iff.
  induction ss as [|a ss IH]; [reflexivity|].
  simpl in *. apply andb_true_iff in H as [Ha H].
  rewrite Ha, (IH H). reflexivity.
Qed.

(** X3: the fold loses no statement and keeps the order of emission:
    read back along its sequence nodes, the fold of a scope of concrete
    statements is the list that was emitted (the last statement, which is
    returned as it is, must not itself be a sequence node). *)
Theorem fold_keeps_emission_order (ss : list pyobj) (s : pyobj) :
  forallb is_Stmt ss = true → is_Block s = false →
  ∃ r, fold_stmts (map Obj (ss ++ [s])) = Ok r ∧ flatten_seq r = ss ++ [s].
Proof.
  intros Hss Hs. exists (right_nested (ss ++ [s])). split.
  - rewrite fold_stmts_spec.
    assert (Hc : existsb bad (checked (map Obj (ss ++ [s]))) = false).
    { unfold checked, needs_noop. rewrite map_app. simpl.
      rewrite last_snoc. simpl. rewrite removelast_last.
      pose proof (entries_ok_map_Obj ss Hss) as H. unfold entries_ok in H.
      apply negb_true_iff in H. exact H. }
    rewrite Hc, denotation_right_nested. reflexivity.
  - apply flatten_right_nested, Hs.
Qed.

Lemma fold_keeps_emission_order_witness :
  ∃ r, fold_stmts (map Obj ([S1; S2] ++ [S3])) = Ok r ∧
       flatten_seq r = [S1; S2] ++ [S3].
Proof.
  exact (fold_keeps_emission_order [S1; S2] S3 eq_refl eq_refl).
Defined.

(** ** Opening a scope, emitting, folding *)

Lemma set_stmt_stack_same o : set_stmt_stack (stmt_stack o) o = o.
Proof. destruct o; reflexivity. Qed.

Lemma set_heap_same w : set_heap (heap w) w = w.
Proof. destruct w; reflexivity. Qed.

Lemma emit_all_ok l : ∀ w c o rest top,
  heap w !! c = Some o → has_break o = false →
  stmt_stack o = rest ++ [top] →
  emit_all c l w =
  (Ok tt, set_heap (<[c := set_stmt_stack (rest ++ [top ++ l]) o]> (heap w)) w).
Proof.
  induction l as [|e l IH]; intros w c o rest top Ho Hb Hs.
  - simpl. rewrite app_nil_r, <- Hs, set_stmt_stack_same.
    rewrite (insert_id _ _ _ Ho), set_heap_same. reflexivity.
  - simpl. rewrite (bind_ok _ _ _ _ _ (emit_ok _ _ _ _ _ e Ho Hb Hs)).
    erewrite IH; [|heap_lookup|exact Hb|reflexivity].
    cbn. rewrite insert_insert_eq, <- app_assoc. reflexivity.
Qed.

(** X4: opening a scope on a block, emitting a list of entries into it
    and folding it with [pop_stmt] returns the statement the list stands
    for and leaves the world exactly as it was: the scopes below are
    untouched, whatever they hold. *)
Theorem scope_round_trip (w : World) (c : nat) (o : KStmtObj) (l : list entry) :
  heap w !! c = Some o → has_break o = false → entries_ok l = true →
  bind (push_scope c) (λ _, bind (emit_all c l) (λ _, pop_stmt c)) w =
  (Ok (scope_denotation l), w).
Proof.
  intros Ho Hb Hl.
  rewrite (bind_ok _ _ _ _ _ (push_scope_ok _ _ _ Ho)).
  erewrite bind_ok; [|eapply emit_all_ok; [heap_lookup|exact Hb|reflexivity]].
  erewrite pop_stmt_step; [|heap_lookup|reflexivity].
  cbn [app]. rewrite fold_stmts_spec, (entries_ok_checked _ Hl).
  cbn. rewrite !insert_insert_eq. destruct o; cbn in *.
  rewrite (insert_id _ _ _ Ho). destruct w; reflexivity.
Qed.

Lemma scope_round_trip_witness :
  bind (push_scope 0)
    (λ _, bind (emit_all 0 [Obj S1; Fn attach; Obj S2]) (λ _, pop_stmt 0))
    (world_of P_S1) =
  (Ok (Block S1 (attach S2)), world_of P_S1).
Proof.
  exact (scope_round_trip (world_of P_S1) 0%nat P_S1
           [Obj S1; Fn attach; Obj S2] eq_refl eq_refl eq_refl).
Defined.

(** X5: on a block whose scope stack is empty, [pop_stmt] raises at the
    pop and [emit] at the index [-1], and neither changes anything; when
    the assertion of the fold fails, the scope has already been popped,
    and the block is left one scope shorter. *)
Theorem scope_stack_edges (w : World) (c : nat) (o : KStmtObj) :
  heap w !! c = Some o →
  (stmt_stack o = [] →
     pop_stmt c w = (Raise (IndexError "pop from empty list"), w)
     ∧ ∀ e, has_break o = false →
            emit c e w = (Raise (IndexError "list index out of range"), w))
  ∧ (∀ rest l, stmt_stack o = rest ++ [l] →
       existsb bad (checked l) = true →
       pop_stmt c w =
       (Raise (AssertionError ""),
        set_heap (<[c := set_stmt_stack rest o]> (heap w)) w)).
Proof.
  intros Ho. split.
  - intros Hs. split.
    + unfold pop_stmt. rewrite (bind_ok _ _ _ _ _ (deref_ok _ _ _ Ho)), Hs.
      reflexivity.
    + intros e Hb. unfold emit.
      rewrite (bind_ok _ _ _ _ _ (deref_ok _ _ _ Ho)), Hb, Hs. reflexivity.
  - intros rest l Hs Hbad.
    rewrite (pop_stmt_step _ _ _ _ _ Ho Hs), fold_stmts_spec, Hbad.
    reflexivity.
Qed.

Lemma scope_stack_edges_witness :
  (pop_stmt 0 (world_of (block_with [] false 0)) =
     (Raise (IndexError "pop from empty list"),
      world_of (block_with [] false 0))
   ∧ emit 0 (Obj S1) (world_of (block_with [] false 0)) =
       (Raise (IndexError "list index out of range"),
        world_of (block_with [] false 0)))
  ∧ pop_stmt 0 (world_of (block_with [[]; [Obj (Opaque 7); Obj S1]] false 0)) =
      (Raise (AssertionError ""), world_of P0).
Proof.
  split; [split|].
  - exact (proj1 (proj1 (scope_stack_edges (world_of (block_with [] false 0))
                           0%nat (block_with [] false 0) eq_refl) eq_refl)).
  - exact (proj2 (proj1 (scope_stack_edges (world_of (block_with [] false 0))
                           0%nat (block_with [] false 0) eq_refl) eq_refl)
             (Obj S1) eq_refl).
  - exact (proj2 (scope_stack_edges
                    (world_of (block_with [[]; [Obj (Opaque 7); Obj S1]] false 0))
                    0%nat (block_with [[]; [Obj (Opaque 7); Obj S1]] false 0)
                    eq_refl)
             [[]] [Obj (Opaque 7); Obj S1] eq_refl eq_refl).
Defined.

Lemma get_current_none w :
  _current w = [] →
  get_current w = (Raise (IndexError "list index out of range"), w).
Proof. unfold get_current. intros ->. reflexivity. Qed.

(** X6: outside any open block, [if_], [else_], [elif_], [for_], [while_]
    and [break_] all fail at [KStmt.get_current()] with an index error and
    change nothing; only [return_] tests that a block is open and reports
    it. *)
Theorem constructs_without_open_block (w : World) :
  _current w = [] →
  (∀ c, if_ c w = (Raise (IndexError "list index out of range"), w))
  ∧ else_ w = (Raise (IndexError "list index out of range"), w)
  ∧ (∀ c, elif_ c w = (Raise (IndexError "list index out of range"), w))
  ∧ (∀ b e nm dt k,
       for_ b e nm dt k w = (Raise (IndexError "list index out of range"), w))
  ∧ (∀ c, while_ c w = (Raise (IndexError "list index out of range"), w))
  ∧ break_ w = (Raise (IndexError "list index out of range"), w)
  ∧ (∀ v, return_ v w = (Raise ReturnWithoutReturnType, w)).
Proof.
  intros Hc. pose proof (get_current_none _ Hc) as G.
  repeat split; intros.
  - unfold if_. apply bind_raise, G.
  - unfold else_. apply bind_raise, G.
  - unfold elif_. apply bind_raise, G.
  - unfold for_. apply bind_raise, G.
  - unfold while_. apply bind_raise, G.
  - unfold break_. apply bind_raise, G.
  - unfold return_, bind, get_len. rewrite Hc. reflexivity.
Qed.

Lemma constructs_without_open_block_witness :
  if_ c1 empty_world =
    (Raise (IndexError "list index out of range"), empty_world)
  ∧ break_ empty_world =
      (Raise (IndexError "list index out of range"), empty_world)
  ∧ return_ (IntImm 1) empty_world =
      (Raise ReturnWithoutReturnType, empty_world).
Proof.
  pose proof (constructs_without_open_block empty_world eq_refl) as T.
  split; [exact (proj1 T c1)|split].
  - exact (proj1 (proj2 (proj2 (proj2 (proj2 (proj2 T)))))).
  - exact (proj2 (proj2 (proj2 (proj2 (proj2 (proj2 T))))) (IntImm 1)).
Defined.

(** ** [with if_(...)] and [with while_(...)] *)

Lemma with_exit_run {B} (body : M B) (exit : M unit) w res w1 w2 :
  body w = (res, w1) → exit w1 = (Ok tt, w2) →
  with_exit body exit w = (res, w2).
Proof. unfold with_exit. intros -> ->. destruct res; reflexivity. Qed.

(** A [with] statement whose entry returns and whose exit callback
    returns has the outcome of its body, raised or returned *)
Lemma with_run {A B} (enter : M (WithScope A)) (body : A → M B) w v cb w1
  res w2 w3 :
  enter w = (Ok (mkWithScope v cb), w1) → body v w1 = (res, w2) →
  cb w2 = (Ok tt, w3) → with_ enter body w = (res, w3).
Proof.
  intros He Hb Hc. unfold with_. rewrite (bind_ok _ _ _ _ _ He).
  cbn [enter_value exit_cb]. exact (with_exit_run _ _ _ _ _ _ Hb Hc).
Qed.

Lemma if_entry_run w cur c o cond :
  _current w = cur ++ [c] → heap w !! c = Some o →
  if_ cond w = (Ok (mkWithScope tt (if_exit_cb c cond)), enter_scope c o w).
Proof.
  intros Hc Ho. unfold if_.
  rewrite (bind_ok _ _ _ _ _ (get_current_ok _ _ _ Hc)).
  rewrite (bind_ok _ _ _ _ _ (push_scope_ok _ _ _ Ho)). reflexivity.
Qed.

Lemma if_exit_run w2 c o2 rest top l b cond :
  heap w2 !! c = Some o2 → stmt_stack o2 = (rest ++ [top]) ++ [l] →
  fold_stmts l = Ok b →
  if_exit_cb c cond w2 =
  (Ok tt, close_scope c o2 rest top (IfThenElse cond b None) w2).
Proof.
  intros Ho Hs Hf. unfold if_exit_cb.
  erewrite bind_ok;
    [|erewrite pop_stmt_step; [rewrite Hf; reflexivity|exact Ho|exact Hs]].
  unfold clear_has_break. step_update.
  erewrite emit_ok; [|heap_lookup|reflexivity|reflexivity].
  unfold close_scope. cbn. rewrite !insert_insert_eq. reflexivity.
Qed.

(** X7: [with if_(cond): body] has the outcome of its body, also when the
    body raises, and in both cases the exit has run: if the body leaves
    its scope [l] on top of the scopes it found and [l] folds to [b],
    the scope is gone, the node [IfThenElse cond b] with no else-branch
    has been appended to the enclosing scope, and the break flag of the
    block is unset. *)
Theorem with_if_folds {B} (w : World) (cur : list nat) (c : nat)
  (o : KStmtObj) (rest : list (list entry)) (top : list entry) (cond : expr)
  (body : unit → M B) (res : result B) (w2 : World) (o2 : KStmtObj)
  (l : list entry) (b : pyobj) :
  _current w = cur ++ [c] → heap w !! c = Some o →
  stmt_stack o = rest ++ [top] →
  body tt (enter_scope c o w) = (res, w2) →
  heap w2 !! c = Some o2 → stmt_stack o2 = (rest ++ [top]) ++ [l] →
  fold_stmts l = Ok b →
  with_ (if_ cond) body w =
  (res, close_scope c o2 rest top (IfThenElse cond b None) w2).
Proof.
  intros Hc Ho Hs Hbody Ho2 Hs2 Hf.
  exact (with_run _ _ _ _ _ _ _ _ _ (if_entry_run _ _ _ _ cond Hc Ho) Hbody
           (if_exit_run _ _ _ _ _ _ _ _ Ho2 Hs2 Hf)).
Qed.

Lemma with_if_folds_witness :
  with_ (if_ c1) (λ _, emit_stmt S2) (world_of P_S1) =
  (Ok tt,
   close_scope 0 (block_with [[Obj S1]; [Obj S2]] false 0) [] [Obj S1]
     (IfThenElse c1 S2 None)
     (world_of (block_with [[Obj S1]; [Obj S2]] false 0)))
  ∧ stack_of_P (with_ (if_ c1) (λ _, emit_stmt S2) (world_of P_S1)) =
      Some [[Obj S1; Obj (IfThenElse c1 S2 None)]].
Proof.
  assert (E : with_ (if_ c1) (λ _, emit_stmt S2) (world_of P_S1) =
              (Ok tt,
               close_scope 0 (block_with [[Obj S1]; [Obj S2]] false 0) []
                 [Obj S1] (IfThenElse c1 S2 None)
                 (world_of (block_with [[Obj S1]; [Obj S2]] false 0)))).
  { apply (with_if_folds (world_of P_S1) [] 0%nat P_S1 [] [Obj S1] c1
             (λ _, emit_stmt S2) (Ok tt)
             (world_of (block_with [[Obj S1]; [Obj S2]] false 0))
             (block_with [[Obj S1]; [Obj S2]] false 0) [Obj S2] S2);
      vm_compute; reflexivity. }
  split; [exact E|]. rewrite E. vm_compute. reflexivity.
Defined.

Lemma while_entry_run w cur c o cond :
  _current w = cur ++ [c] → heap w !! c = Some o →
  while_ cond w = (Ok (mkWithScope tt (while_exit_cb c cond)), enter_loop c o w).
Proof.
  intros Hc Ho. unfold while_.
  rewrite (bind_ok _ _ _ _ _ (get_current_ok _ _ _ Hc)).
  rewrite (bind_ok _ _ _ _ _ (push_scope_ok _ _ _ Ho)).
  step_update. unfold enter_loop. cbn. rewrite insert_insert_eq. reflexivity.
Qed.

Lemma while_exit_run w2 c o2 rest top l b cond :
  heap w2 !! c = Some o2 → stmt_stack o2 = (rest ++ [top]) ++ [l] →
  fold_stmts l = Ok b →
  while_exit_cb c cond w2 =
  (Ok tt, close_loop c o2 rest top (While cond b) w2).
Proof.
  intros Ho Hs Hf. unfold while_exit_cb.
  erewrite bind_ok;
    [|erewrite pop_stmt_step; [rewrite Hf; reflexivity|exact Ho|exact Hs]].
  unfold clear_has_break. step_update. step_update.
  erewrite emit_ok; [|heap_lookup|reflexivity|reflexivity].
  unfold close_loop. cbn. rewrite !insert_insert_eq. reflexivity.
Qed.

(** X8: [with while_(cond): body] raises the loop depth of the block by
    one for the body, and at the exit, whatever the outcome of the body,
    folds the scope, appends the node [While cond b] to the enclosing
    scope, unsets the break flag and lowers the depth by one. *)
Theorem with_while_folds {B} (w : World) (cur : list nat) (c : nat)
  (o : KStmtObj) (rest : list (list entry)) (top : list entry) (cond : expr)
  (body : unit → M B) (res : result B) (w2 : World) (o2 : KStmtObj)
  (l : list entry) (b : pyobj) :
  _current w = cur ++ [c] → heap w !! c = Some o →
  stmt_stack o = rest ++ [top] →
  body tt (enter_loop c o w) = (res, w2) →
  heap w2 !! c = Some o2 → stmt_stack o2 = (rest ++ [top]) ++ [l] →
  fold_stmts l = Ok b →
  with_ (while_ cond) body w =
  (res, close_loop c o2 rest top (While cond b) w2).
Proof.
  intros Hc Ho Hs Hbody Ho2 Hs2 Hf.
  exact (with_run _ _ _ _ _ _ _ _ _ (while_entry_run _ _ _ _ cond Hc Ho) Hbody
           (while_exit_run _ _ _ _ _ _ _ _ Ho2 Hs2 Hf)).
Qed.

Lemma with_while_folds_witness :
  with_ (while_ c1) (λ _, emit_stmt S2) (world_of P_S1) =
  (Ok tt,
   close_loop 0 (block_with [[Obj S1]; [Obj S2]] false 1) [] [Obj S1]
     (While c1 S2) (world_of (block_with [[Obj S1]; [Obj S2]] false 1)))
  ∧ stack_of_P (with_ (while_ c1) (λ _, emit_stmt S2) (world_of P_S1)) =
      Some [[Obj S1; Obj (While c1 S2)]]
  ∧ for_level_of_P (with_ (while_ c1) (λ _, emit_stmt S2) (world_of P_S1)) =
      Some 0.
Proof.
  assert (E : with_ (while_ c1) (λ _, emit_stmt S2) (world_of P_S1) =
              (Ok tt,
               close_loop 0 (block_with [[Obj S1]; [Obj S2]] false 1) []
                 [Obj S1] (While c1 S2)
                 (world_of (block_with [[Obj S1]; [Obj S2]] false 1)))).
  { apply (with_while_folds (world_of P_S1) [] 0%nat P_S1 [] [Obj S1] c1
             (λ _, emit_stmt S2) (Ok tt)
             (world_of (block_with [[Obj S1]; [Obj S2]] false 1))
             (block_with [[Obj S1]; [Obj S2]] false 1) [Obj S2] S2);
      vm_compute; reflexivity. }
  split; [exact E|]. rewrite E. split; vm_compute; reflexivity.
Defined.

Lemma break_run w cur c o rest top :
  _current w = cur ++ [c] → heap w !! c = Some o →
  for_level o ≠ 0 → has_break o = false → stmt_stack o = rest ++ [top] →
  break_ w =
  (Ok tt,
   set_heap (<[c := set_has_break true
                      (set_stmt_stack (rest ++ [top ++ [Obj Break]]) o)]>
               (heap w)) w).
Proof.
  intros Hc Ho Hl Hb Hs. apply Z.eqb_neq in Hl. unfold break_.
  rewrite (bind_ok _ _ _ _ _ (get_current_ok _ _ _ Hc)).
  rewrite (bind_ok _ _ _ _ _ (deref_ok _ _ _ Ho)), Hl.
  rewrite (bind_ok _ _ _ _ _ (get_current_ok _ _ _ Hc)).
  rewrite (bind_ok _ _ _ _ _ (emit_ok _ _ _ _ _ _ Ho Hb Hs)).
  erewrite bind_ok; [|eapply get_current_ok; cbn; exact Hc].
  erewrite update_ok; [|heap_lookup].
  cbn. rewrite insert_insert_eq. reflexivity.
Qed.

(** X9: a [break_] directly inside [with while_(cond):] is accepted
    whenever the loop depth of the block was not [-1] before the loop
    (the test of [break_] is that the depth is not zero), and the loop
    closes with the body [Break]: the depth is back at its value, the
    break flag is unset, and the list of open blocks is unchanged. *)
Theorem break_in_while (w : World) (cur : list nat) (c : nat) (o : KStmtObj)
  (rest : list (list entry)) (top : list entry) (cond : expr) :
  _current w = cur ++ [c] → heap w !! c = Some o →
  stmt_stack o = rest ++ [top] → has_break o = false → for_level o ≠ -1 →
  ∃ w' o',
    with_ (while_ cond) (λ _, break_) w = (Ok tt, w') ∧
    heap w' !! c = Some o' ∧
    stmt_stack o' = rest ++ [top ++ [Obj (While cond Break)]] ∧
    for_level o' = for_level o ∧ has_break o' = false ∧
    _current w' = _current w.
Proof.
  intros Hc Ho Hs Hb Hl.
  eexists _, _. split.
  - eapply with_run.
    + exact (while_entry_run _ _ _ _ cond Hc Ho).
    + eapply break_run.
      * cbn. exact Hc.
      * unfold enter_loop. heap_lookup.
      * cbn. lia.
      * exact Hb.
      * cbn. rewrite Hs. reflexivity.
    + eapply while_exit_run; [heap_lookup|cbn; reflexivity|reflexivity].
  - unfold close_loop. cbn. rewrite lookup_insert_eq.
    split; [reflexivity|]. cbn. split; [reflexivity|].
    split; [lia|]. split; reflexivity.
Qed.

Lemma break_in_while_witness :
  ∃ w' o',
    with_ (while_ c1) (λ _, break_) (world_of P_S1) = (Ok tt, w') ∧
    heap w' !! 0%nat = Some o' ∧
    stmt_stack o' = [] ++ [[Obj S1] ++ [Obj (While c1 Break)]] ∧
    for_level o' = for_level P_S1 ∧ has_break o' = false ∧
    _current w' = _current (world_of P_S1).
Proof.
  exact (break_in_while (world_of P_S1) [] 0%nat P_S1 [] [Obj S1] c1
           eq_refl eq_refl eq_refl eq_refl ltac:(discriminate)).
Defined.

(** ** [with elif_(...)] and [with else_()] *)


Lemma elif_entry_run w cur c o rest top' p cond :
  _current w = cur ++ [c] → heap w !! c = Some o →
  stmt_stack o = rest ++ [top' ++ [Obj p]] → is_IfThenElse p = true →
  elif_ cond w =
  (Ok (mkWithScope tt (elif_exit_cb c p cond)), enter_branch c o rest top' w).
Proof.
  intros Hc Ho Hs Hp. unfold elif_.
  rewrite (bind_ok _ _ _ _ _ (get_current_ok _ _ _ Hc)).
  rewrite (bind_ok _ _ _ _ _ (prev_entry_ok _ _ _ _ _ _ _ Ho Hs)).
  destruct p; try discriminate Hp.
  rewrite (bind_ok _ _ _ _ _ (pop_entry_ok _ _ _ _ _ _ Ho Hs)).
  erewrite bind_ok; [|apply push_scope_ok; heap_lookup].
  unfold enter_branch. cbn. rewrite insert_insert_eq. reflexivity.
Qed.

Lemma else_entry_run w cur c o rest top' c0 t :
  _current w = cur ++ [c] → heap w !! c = Some o →
  stmt_stack o = rest ++ [top' ++ [Obj (IfThenElse c0 t None)]] →
  else_ w =
  (Ok (mkWithScope tt (else_exit_cb c (IfThenElse c0 t None))),
   enter_branch c o rest top' w).
Proof.
  intros Hc Ho Hs. unfold else_.
  rewrite (bind_ok _ _ _ _ _ (get_current_ok _ _ _ Hc)).
  rewrite (bind_ok _ _ _ _ _ (prev_entry_ok _ _ _ _ _ _ _ Ho Hs)).
  cbn [bool_decide decide_rel]. rewrite bool_decide_eq_false_2
    by (intros [x Hx]; discriminate).
  rewrite (bind_ok _ _ _ _ _ (pop_entry_ok _ _ _ _ _ _ Ho Hs)).
  erewrite bind_ok; [|apply push_scope_ok; heap_lookup].
  unfold enter_branch. cbn. rewrite insert_insert_eq. reflexivity.
Qed.

Lemma elif_exit_run w2 c o2 rest top l b p cond r :
  heap w2 !! c = Some o2 → stmt_stack o2 = (rest ++ [top]) ++ [l] →
  fold_stmts l = Ok b → replace_else p (IfThenElse cond b None) = Ok r →
  elif_exit_cb c p cond w2 = (Ok tt, close_scope c o2 rest top r w2).
Proof.
  intros Ho Hs Hf Hr. unfold elif_exit_cb.
  erewrite bind_ok;
    [|erewrite pop_stmt_step; [rewrite Hf; reflexivity|exact Ho|exact Hs]].
  unfold clear_has_break. step_update. rewrite Hr.
  erewrite emit_ok; [|heap_lookup|reflexivity|reflexivity].
  unfold close_scope. cbn. rewrite !insert_insert_eq. reflexivity.
Qed.

Lemma else_exit_run w2 c o2 rest top l b p r :
  heap w2 !! c = Some o2 → stmt_stack o2 = (rest ++ [top]) ++ [l] →
  fold_stmts l = Ok b → replace_else p b = Ok r →
  else_exit_cb c p w2 = (Ok tt, close_scope c o2 rest top r w2).
Proof.
  intros Ho Hs Hf Hr. unfold else_exit_cb.
  erewrite bind_ok;
    [|erewrite pop_stmt_step; [rewrite Hf; reflexivity|exact Ho|exact Hs]].
  unfold clear_has_break. step_update. rewrite Hr.
  erewrite emit_ok; [|heap_lookup|reflexivity|reflexivity].
  unfold close_scope. cbn. rewrite !insert_insert_eq. reflexivity.
Qed.

(** X10: [with elif_(cond): body] after a conditional [p] takes [p] off
    the enclosing scope and, at the exit, puts back one conditional in
    its place: the branches of [p] in their order, followed by the new
    branch [(cond, b)], with no final else.  This holds for every
    conditional [p], also one that already ended in an else, which is
    then lost. *)
Theorem with_elif_extends_chain {B} (w : World) (cur : list nat) (c : nat)
  (o : KStmtObj) (rest : list (list entry)) (top' : list entry) (p : pyobj)
  (cond : expr) (body : unit → M B) (res : result B) (w2 : World)
  (o2 : KStmtObj) (l : list entry) (b : pyobj) :
  _current w = cur ++ [c] → heap w !! c = Some o →
  stmt_stack o = rest ++ [top' ++ [Obj p]] → is_IfThenElse p = true →
  body tt (enter_branch c o rest top' w) = (res, w2) →
  heap w2 !! c = Some o2 → stmt_stack o2 = (rest ++ [top']) ++ [l] →
  fold_stmts l = Ok b →
  ∃ r, with_ (elif_ cond) body w = (res, close_scope c o2 rest top' r w2)
       ∧ branches r = branches p ++ [(cond, b)]
       ∧ final_else r = None.
Proof.
  intros Hc Ho Hs Hp Hbody Ho2 Hs2 Hf.
  destruct (replace_else_chain_aux (chain_length p) p (IfThenElse cond b None)
              (le_n _) Hp) as (r & Hr & _ & Hbr & Hfe).
  exists r. split; [|split; [exact Hbr|exact Hfe]].
  exact (with_run _ _ _ _ _ _ _ _ _
           (elif_entry_run _ _ _ _ _ _ _ cond Hc Ho Hs Hp) Hbody
           (elif_exit_run _ _ _ _ _ _ _ _ _ _ Ho2 Hs2 Hf Hr)).
Qed.

Lemma with_elif_extends_chain_witness :
  ∃ r, with_ (elif_ c3) (λ _, emit_stmt S3)
         (world_of (block_with [[Obj chain12]] false 0)) =
       (Ok tt,
        close_scope 0 (block_with [[]; [Obj S3]] false 0) [] [] r
          (world_of (block_with [[]; [Obj S3]] false 0)))
       ∧ branches r = branches chain12 ++ [(c3, S3)]
       ∧ final_else r = None.
Proof.
  apply (with_elif_extends_chain (world_of (block_with [[Obj chain12]] false 0))
           [] 0%nat (block_with [[Obj chain12]] false 0) [] [] chain12 c3
           (λ _, emit_stmt S3) (Ok tt)
           (world_of (block_with [[]; [Obj S3]] false 0))
           (block_with [[]; [Obj S3]] false 0) [Obj S3] S3);
    vm_compute; reflexivity.
Defined.

(** X11: [with else_(): body] after a conditional without else-branch
    takes it off the enclosing scope and, at the exit, puts it back with
    the fold of the body as its else-branch, whatever the outcome of the
    body. *)
Theorem with_else_sets_else {B} (w : World) (cur : list nat) (c : nat)
  (o : KStmtObj) (rest : list (list entry)) (top' : list entry)
  (c0 : expr) (t : pyobj) (body : unit → M B) (res : result B) (w2 : World)
  (o2 : KStmtObj) (l : list entry) (b : pyobj) :
  _current w = cur ++ [c] → heap w !! c = Some o →
  stmt_stack o = rest ++ [top' ++ [Obj (IfThenElse c0 t None)]] →
  body tt (enter_branch c o rest top' w) = (res, w2) →
  heap w2 !! c = Some o2 → stmt_stack o2 = (rest ++ [top']) ++ [l] →
  fold_stmts l = Ok b →
  with_ else_ body w =
  (res, close_scope c o2 rest top' (IfThenElse c0 t (Some b)) w2).
Proof.
  intros Hc Ho Hs Hbody Ho2 Hs2 Hf.
  eapply with_run.
  - exact (else_entry_run _ _ _ _ _ _ _ _ Hc Ho Hs).
  - exact Hbody.
  - apply (else_exit_run _ _ _ _ _ _ _ _ _ Ho2 Hs2 Hf). reflexivity.
Qed.

Lemma with_else_sets_else_witness :
  with_ else_ (λ _, emit_stmt S2)
    (world_of (block_with [[Obj (IfThenElse c1 S1 None)]] false 0)) =
  (Ok tt,
   close_scope 0 (block_with [[]; [Obj S2]] false 0) [] []
     (IfThenElse c1 S1 (Some S2))
     (world_of (block_with [[]; [Obj S2]] false 0))).
Proof.
  apply (with_else_sets_else
           (world_of (block_with [[Obj (IfThenElse c1 S1 None)]] false 0))
           [] 0%nat (block_with [[Obj (IfThenElse c1 S1 None)]] false 0)
           [] [] c1 S1 (λ _, emit_stmt S2) (Ok tt)
           (world_of (block_with [[]; [Obj S2]] false 0))
           (block_with [[]; [Obj S2]] false 0) [Obj S2] S2);
    vm_compute; reflexivity.
Defined.





(** ** [with for_(...)] *)

Lemma loop_name_ok m w : -105 ≤ m → loop_name m w = (Ok (default_name m), w).
Proof.
  intros H. unfold loop_name, default_name. destruct (m <? 3); [|reflexivity].
  unfold py_chr. rewrite (proj2 (Z.leb_le 0 (105 + m))) by lia. reflexivity.
Qed.

Lemma default_name_inj (m n : Z) :
  0 ≤ m → 0 ≤ n → default_name m = default_name n → m = n.
Proof.
  intros Hm Hn. unfold default_name.
  destruct (Z.ltb_spec m 3) as [Hm3|Hm3], (Z.ltb_spec n 3) as [Hn3|Hn3].
  - assert (m = 0 ∨ m = 1 ∨ m = 2) as [-> | [-> | ->]] by lia;
      assert (n = 0 ∨ n = 1 ∨ n = 2) as [-> | [-> | ->]] by lia;
      first [reflexivity | discriminate].
  - assert (m = 0 ∨ m = 1 ∨ m = 2) as [-> | [-> | ->]] by lia; discriminate.
  - assert (n = 0 ∨ n = 1 ∨ n = 2) as [-> | [-> | ->]] by lia; discriminate.
  - intros H. simpl in H. injection H as H. apply pretty_Z_inj in H. lia.
Qed.

(** X14: the names [for_] derives from the counter ([i], [j], [k], then
    [i_0], [i_1], ...) are pairwise distinct: two different values of the
    counter never give one name. *)
Theorem default_names_distinct (m n : Z) :
  0 ≤ m → 0 ≤ n → m ≠ n → default_name m ≠ default_name n.
Proof.
  intros Hm Hn Hne H. exact (Hne (default_name_inj m n Hm Hn H)).
Qed.

Lemma default_names_distinct_witness :
  default_name 2 = "k" ∧ default_name 3 = "i_0" ∧
  default_name 2 ≠ default_name 3.
Proof.
  split; [reflexivity|split; [reflexivity|]].
  exact (default_names_distinct 2 3 ltac:(lia) ltac:(lia) ltac:(lia)).
Defined.

Lemma get_nidx_ok w c o m :
  heap w !! c = Some o → nidx o = Some m → get_nidx c w = (Ok m, w).
Proof.
  intros Ho Hn. unfold get_nidx.
  rewrite (bind_ok _ _ _ _ _ (deref_ok _ _ _ Ho)), Hn. reflexivity.
Qed.

Lemma cls_incr_ok w n :
  cls_for_level w = Some n →
  cls_for_level_incr w = (Ok tt, set_cls_for_level (Some (n + 1)) w).
Proof. unfold cls_for_level_incr. intros ->. reflexivity. Qed.

(** X15: when the block has a counter [nidx] and the class has the
    attribute [for_level], [for_] with the default name enters: the loop
    variable is named from the counter, the counter is advanced by one, a
    scope is opened, the extent is [end] for a zero [begin] and
    [end - begin] otherwise, and the depth that is raised is the one of
    the class; the depth of the block, which [break_] reads, is not
    touched. *)
Theorem for_entry_default_name (w : World) (cur : list nat) (c : nat)
  (o : KStmtObj) (m n : Z) (b e : expr) (dt kind : string) :
  _current w = cur ++ [c] → heap w !! c = Some o →
  nidx o = Some m → 0 ≤ m → cls_for_level w = Some n →
  for_ b e "i" dt kind w =
  (Ok (mkWithScope (Var (default_name m) dt)
         (for_exit_cb c (Var (default_name m) dt) b (loop_extent b e) kind)),
   set_cls_for_level (Some (n + 1))
     (set_heap
        (<[c := set_stmt_stack (stmt_stack o ++ [[]])
                  (set_nidx (Some (m + 1)) o)]> (heap w)) w)).
Proof.
  intros Hc Ho Hm Hm0 Hn. unfold for_.
  rewrite (bind_ok _ _ _ _ _ (get_current_ok _ _ _ Hc)).
  rewrite String.eqb_refl.
  erewrite bind_ok; cycle 1.
  { rewrite (bind_ok _ _ _ _ _ (get_nidx_ok _ _ _ _ Ho Hm)).
    rewrite (bind_ok _ _ _ _ _ (loop_name_ok m w ltac:(lia))).
    rewrite (bind_ok _ _ _ _ _ (get_nidx_ok _ _ _ _ Ho Hm)).
    rewrite (bind_ok _ _ _ _ _ (update_ok _ _ _ _ Ho)). reflexivity. }
  erewrite bind_ok; [|apply push_scope_ok; heap_lookup].
  erewrite bind_ok; [|apply cls_incr_ok; cbn; exact Hn].
  cbn. rewrite insert_insert_eq. reflexivity.
Qed.

Lemma for_entry_default_name_witness :
  for_ (IntImm 2) (IntImm 7) "i" "int32" "serial" (cls_world P_counting) =
  (Ok (mkWithScope (Var "i" "int32")
         (for_exit_cb 0 (Var "i" "int32") (IntImm 2) (IntImm 5) "serial")),
   set_cls_for_level (Some 1)
     (world_of (set_stmt_stack [[]; []] (set_nidx (Some 1) P0)))).
Proof.
  exact (for_entry_default_name (cls_world P_counting) [] 0%nat P_counting
           0 0 (IntImm 2) (IntImm 7) "int32" "serial"
           eq_refl eq_refl eq_refl ltac:(lia) eq_refl).
Defined.

Lemma for_entry_explicit_name w cur c o n b e nm dt kind :
  _current w = cur ++ [c] → heap w !! c = Some o →
  nm ≠ "i" → cls_for_level w = Some n →
  for_ b e nm dt kind w =
  (Ok (mkWithScope (Var nm dt)
         (for_exit_cb c (Var nm dt) b (loop_extent b e) kind)),
   set_cls_for_level (Some (n + 1)) (enter_scope c o w)).
Proof.
  intros Hc Ho Hnm Hn. unfold for_.
  rewrite (bind_ok _ _ _ _ _ (get_current_ok _ _ _ Hc)).
  rewrite (proj2 (String.eqb_neq nm "i") Hnm).
  erewrite bind_ok; [|reflexivity].
  erewrite bind_ok; [|apply push_scope_ok; exact Ho].
  erewrite bind_ok; [|apply cls_incr_ok; cbn; exact Hn].
  reflexivity.
Qed.

Lemma kind_id_cases kind :
  (kind = "serial" ∧ kind_id kind = Ok SERIAL)
  ∨ (kind = "parallel" ∧ kind_id kind = Ok PARALLEL)
  ∨ (kind = "vectorize" ∧ kind_id kind = Ok VECTORIZED)
  ∨ (kind = "unroll" ∧ kind_id kind = Ok UNROLLED)
  ∨ (kind ≠ "serial" ∧ kind ≠ "parallel" ∧ kind ≠ "vectorize"
     ∧ kind ≠ "unroll" ∧ kind_id kind = Raise UnknownLoopKind).
Proof.
  unfold kind_id.
  destruct (String.eqb_spec kind "serial") as [->|H1]; [auto|].
  destruct (String.eqb_spec kind "parallel") as [->|H2]; [auto|].
  destruct (String.eqb_spec kind "vectorize") as [->|H3]; [auto 6|].
  destruct (String.eqb_spec kind "unroll") as [->|H4]; [auto 6|].
  auto 10.
Qed.

(** X16: a loop kind that is none of [serial], [parallel], [vectorize]
    and [unroll] is not refused when [for_] is entered: the scope is
    opened and the body runs.  It is refused at the exit, after the body,
    and the error then replaces whatever the body returned or raised; the
    world is left as the body left it, with the scope of the loop still
    open. *)
Theorem for_unknown_kind_is_late {B} (w : World) (cur : list nat) (c : nat)
  (o : KStmtObj) (n : Z) (b e : expr) (nm dt kind : string)
  (body : expr → M B) (res : result B) (w2 : World) :
  _current w = cur ++ [c] → heap w !! c = Some o →
  nm ≠ "i" → cls_for_level w = Some n →
  kind ≠ "serial" → kind ≠ "parallel" → kind ≠ "vectorize" →
  kind ≠ "unroll" →
  body (Var nm dt) (set_cls_for_level (Some (n + 1)) (enter_scope c o w)) =
    (res, w2) →
  with_ (for_ b e nm dt kind) body w = (Raise UnknownLoopKind, w2).
Proof.
  intros Hc Ho Hnm Hn H1 H2 H3 H4 Hbody. unfold with_.
  rewrite (bind_ok _ _ _ _ _
             (for_entry_explicit_name _ _ _ _ _ b e _ dt kind Hc Ho Hnm Hn)).
  cbn [enter_value exit_cb]. unfold with_exit. rewrite Hbody.
  unfold for_exit_cb.
  destruct (kind_id_cases kind)
    as [[-> _]|[[-> _]|[[-> _]|[[-> _]|(_&_&_&_&->)]]]];
    try contradiction.
  destruct res; reflexivity.
Qed.

Lemma for_unknown_kind_is_late_witness :
  with_ (for_ (IntImm 0) (IntImm 5) "x" "int32" "unrolled")
    (λ _, emit_stmt S1) (cls_world P0) =
  (Raise UnknownLoopKind,
   set_cls_for_level (Some 1) (world_of (block_with [[]; [Obj S1]] false 0))).
Proof.
  apply (for_unknown_kind_is_late (cls_world P0) [] 0%nat P0 0
           (IntImm 0) (IntImm 5) "x" "int32" "unrolled" (λ _, emit_stmt S1)
           (Ok tt)
           (set_cls_for_level (Some 1)
              (world_of (block_with [[]; [Obj S1]] false 0))));
    first [discriminate | vm_compute; reflexivity].
Defined.

(** X17: [with for_(...)] with a known kind has the outcome of its body,
    and its exit pops nothing: the node [For] is appended to the scope
    that is then on top, which is the loop's own scope when the body left
    it there, and its body field is the block object, not a fold of that
    scope.  The exit raises the depth of the class a second time and
    writes the break flag of the class; the break flag of the block must
    already be unset for the exit to return. *)
Theorem with_for_keeps_its_scope {B} (w : World) (cur : list nat) (c : nat)
  (o : KStmtObj) (n n2 : Z) (b e : expr) (nm dt kind : string) (k : ForKind)
  (body : expr → M B) (res : result B) (w2 : World) (o2 : KStmtObj)
  (rest : list (list entry)) (l : list entry) :
  _current w = cur ++ [c] → heap w !! c = Some o →
  nm ≠ "i" → cls_for_level w = Some n → kind_id kind = Ok k →
  body (Var nm dt) (set_cls_for_level (Some (n + 1)) (enter_scope c o w)) =
    (res, w2) →
  heap w2 !! c = Some o2 → stmt_stack o2 = rest ++ [l] →
  has_break o2 = false → cls_for_level w2 = Some n2 →
  with_ (for_ b e nm dt kind) body w =
  (res,
   set_heap
     (<[c := set_stmt_stack
               (rest ++ [l ++ [Obj (For (Var nm dt) b (loop_extent b e) k
                                      (KStmtRef c))]]) o2]> (heap w2))
     (set_cls_for_level (Some (n2 + 1)) (set_cls_has_break (Some false) w2))).
Proof.
  intros Hc Ho Hnm Hn Hk Hbody Ho2 Hs2 Hb2 Hn2.
  exact (with_run _ _ _ _ _ _ _ _ _
           (for_entry_explicit_name _ _ _ _ _ b e _ dt kind Hc Ho Hnm Hn) Hbody
           (for_exit_cb_run _ _ _ _ _ _ _ _ _ _ _ Hk Hn2 Ho2 Hb2 Hs2)).
Qed.

Lemma with_for_keeps_its_scope_witness :
  stack_of_P
    (with_ (for_ (IntImm 0) (IntImm 5) "x" "int32" "parallel")
       (λ _, emit_stmt S1) (cls_world P0)) =
  Some [[]; [Obj S1;
             Obj (For (Var "x" "int32") (IntImm 0) (IntImm 5) PARALLEL
                    (KStmtRef 0))]]
  ∧ cls_for_level
      (with_ (for_ (IntImm 0) (IntImm 5) "x" "int32" "parallel")
         (λ _, emit_stmt S1) (cls_world P0)).2 = Some 2.
Proof.
  assert (E : with_ (for_ (IntImm 0) (IntImm 5) "x" "int32" "parallel")
                (λ _, emit_stmt S1) (cls_world P0) =
              (Ok tt,
               set_heap
                 (<[0%nat := set_stmt_stack
                      ([[]] ++ [[Obj S1] ++
                                [Obj (For (Var "x" "int32") (IntImm 0)
                                        (loop_extent (IntImm 0) (IntImm 5))
                                        PARALLEL (KStmtRef 0))]])
                      (block_with [[]; [Obj S1]] false 0)]>
                    (heap (set_cls_for_level (Some 1)
                             (world_of (block_with [[]; [Obj S1]] false 0)))))
                 (set_cls_for_level (Some (1 + 1))
                    (set_cls_has_break (Some false)
                       (set_cls_for_level (Some 1)
                          (world_of (block_with [[]; [Obj S1]] false 0))))))).
  { apply (with_for_keeps_its_scope (cls_world P0) [] 0%nat P0 0 1
             (IntImm 0) (IntImm 5) "x" "int32" "parallel" PARALLEL
             (λ _, emit_stmt S1) (Ok tt)
             (set_cls_for_level (Some 1)
                (world_of (block_with [[]; [Obj S1]] false 0)))
             (block_with [[]; [Obj S1]] false 0) [[]] [Obj S1]);
      first [discriminate | vm_compute; reflexivity]. }
  rewrite E. split; vm_compute; reflexivity.
Defined.

(** ** What closing a block registers *)

Lemma exit_with_parent_effects w self parent cur so po rest top body prest ptop :
  _current w = cur ++ [parent; self] → parent ≠ self →
  heap w !! self = Some so → heap w !! parent = Some po →
  stmt_stack so = rest ++ [top] → fold_stmts top = Ok body →
  has_break po = false → stmt_stack po = prest ++ [ptop] →
  ∃ w' so' po',
    KStmt__exit__ self w = (Ok tt, w') ∧
    _current w' = cur ++ [parent] ∧
    heap w' !! self = Some so' ∧ heap w' !! parent = Some po' ∧
    var_dict po' = <[name so := KStmtRef self]> (var_dict po) ∧
    subKStmts po' = subKStmts po ++ [self] ∧
    lhs_tensors po' = lhs_tensors po ∪ lhs_tensors so ∧
    name_with_prefix so' = name_with_prefix po +:+ "." +:+ name so ∧
    stmt_stack so' = rest ∧
    _op so' = Some (ExternOp (name so) (axis_list so)
                      (elements (last_subKStmts so ∪ input_KStmts so))
                      (_buf so) body) ∧
    KStmt_ops w' = KStmt_ops w ∧ last_KStmts w' = last_KStmts w.
Proof.
  intros Hc Hne Hs Hp Hss Hf Hb Hps.
  unfold KStmt__exit__.
  step_update. step_deref.
  erewrite bind_ok;
    [|erewrite pop_stmt_step;
      [rewrite Hf; reflexivity|heap_lookup|cbn; exact Hss]].
  erewrite bind_ok;
    [|apply (pop_current_ok _ (cur ++ [parent]) self); cbn;
      rewrite Hc, <- app_assoc; reflexivity].
  step_update.
  erewrite bind_ok; [|reflexivity]. cbn [_current set_current set_heap].
  rewrite last_snoc.
  step_deref. step_deref.
  erewrite bind_ok; [|eapply emit_ok; [heap_lookup|exact Hb|exact Hps]].
  step_deref.
  do 3 step_update. step_deref. step_update. step_deref. step_update.
  step_deref. step_update. step_deref. step_update.
  erewrite update_ok; [|heap_lookup].
  eexists _, _, _. split; [reflexivity|].
  cbn [heap set_heap _current set_current].
  split; [reflexivity|].
  split. { rewrite lookup_insert_ne by congruence.
           rewrite lookup_insert_eq. reflexivity. }
  split. { rewrite lookup_insert_eq. reflexivity. }
  cbn. repeat split; reflexivity.
Qed.

Lemma getattr_var_dict w self o a v :
  heap w !! self = Some o → var_dict o !! a = Some v →
  KStmt__getattr__ self a w = (Ok v, w).
Proof.
  intros Ho Hv. unfold KStmt__getattr__.
  rewrite (bind_ok _ _ _ _ _ (deref_ok _ _ _ Ho)), Hv. reflexivity.
Qed.

(** X18: whenever a block closes under an open parent, the parent can
    afterwards resolve the block by its name ([parent.<name>] is the
    block), the block is the last of the parent's sub-blocks, the
    parent's written tensors include the block's, the block's prefixed
    name is the parent's followed by a dot and its own, and the block's
    operation holds the fold of the scope that was popped. *)
Theorem closed_block_is_registered (w w' : World) (self parent : nat)
  (cur : list nat) :
  _current w = cur ++ [parent; self] → parent ≠ self →
  KStmt__exit__ self w = (Ok tt, w') →
  ∃ so po so' po' body,
    heap w !! self = Some so ∧ heap w !! parent = Some po ∧
    heap w' !! self = Some so' ∧ heap w' !! parent = Some po' ∧
    _current w' = cur ++ [parent] ∧
    KStmt__getattr__ parent (name so) w' = (Ok (KStmtRef self), w') ∧
    subKStmts po' = subKStmts po ++ [self] ∧
    lhs_tensors po' = lhs_tensors po ∪ lhs_tensors so ∧
    name_with_prefix so' = name_with_prefix po +:+ "." +:+ name so ∧
    op_body <$> _op so' = Some body ∧
    (∃ rest top, stmt_stack so = rest ++ [top] ∧ fold_stmts top = Ok body ∧
                 stmt_stack so' = rest).
Proof.
  intros Hc Hne H.
  destruct (exit_preconditions _ _ _ _ _ Hc Hne H)
    as (so & po & rest & top & body & prest & ptop
        & Hs & Hp & Hss & Hf & Hb & Hps).
  destruct (exit_with_parent_effects w self parent cur so po rest top body
              prest ptop Hc Hne Hs Hp Hss Hf Hb Hps)
    as (w'' & so' & po' & E & Hc' & Hs' & Hp' & Hv & Hsub & Hlhs & Hn & Hst
        & Hop & _).
  rewrite E in H. injection H as <-.
  exists so, po, so', po', body. repeat split; try assumption.
  - apply (getattr_var_dict _ _ _ _ _ Hp'). rewrite Hv.
    apply lookup_insert_eq.
  - rewrite Hop. reflexivity.
  - exists rest, top. auto.
Qed.

Lemma closed_block_is_registered_witness :
  ∃ so po so' po' body,
    heap closing_world !! 1%nat = Some so ∧
    heap closing_world !! 0%nat = Some po ∧
    heap (KStmt__exit__ 1 closing_world).2 !! 1%nat = Some so' ∧
    heap (KStmt__exit__ 1 closing_world).2 !! 0%nat = Some po' ∧
    _current (KStmt__exit__ 1 closing_world).2 = [] ++ [0%nat] ∧
    KStmt__getattr__ 0 (name so) (KStmt__exit__ 1 closing_world).2 =
      (Ok (KStmtRef 1), (KStmt__exit__ 1 closing_world).2) ∧
    subKStmts po' = subKStmts po ++ [1%nat] ∧
    lhs_tensors po' = lhs_tensors po ∪ lhs_tensors so ∧
    name_with_prefix so' = name_with_prefix po +:+ "." +:+ name so ∧
    op_body <$> _op so' = Some body ∧
    (∃ rest top, stmt_stack so = rest ++ [top] ∧ fold_stmts top = Ok body ∧
                 stmt_stack so' = rest).
Proof.
  refine (closed_block_is_registered closing_world
            (KStmt__exit__ 1 closing_world).2 1%nat 0%nat []
            eq_refl ltac:(lia) _).
  vm_compute. reflexivity.
Defined.

(** X19: [with block: body] closes the block whatever the body does: if
    the body raises, the exit still runs, the block is taken off the list
    of open blocks and registered in its parent, and the exception of the
    body is what the statement raises. *)
Theorem with_KStmt_closes_whatever_the_body {B} (w : World) (cur : list nat)
  (s parent : nat) (body : M B) (res : result B) (w2 : World)
  (so po : KStmtObj) (rest prest : list (list entry)) (top ptop : list entry)
  (folded : pyobj) :
  parent ≠ s →
  body (set_current (_current w ++ [s]) w) = (res, w2) →
  _current w2 = cur ++ [parent; s] →
  heap w2 !! s = Some so → heap w2 !! parent = Some po →
  stmt_stack so = rest ++ [top] → fold_stmts top = Ok folded →
  has_break po = false → stmt_stack po = prest ++ [ptop] →
  ∃ w',
    with_KStmt s body w = (res, w') ∧
    _current w' = cur ++ [parent] ∧
    KStmt__getattr__ parent (name so) w' = (Ok (KStmtRef s), w').
Proof.
  intros Hne Hbody Hc Hs Hp Hss Hf Hb Hps.
  destruct (exit_with_parent_effects w2 s parent cur so po rest top folded
              prest ptop Hc Hne Hs Hp Hss Hf Hb Hps)
    as (w' & so' & po' & E & Hc' & Hs' & Hp' & Hv & _).
  exists w'. split; [|split; [exact Hc'|]].
  - unfold with_KStmt, KStmt__enter__. unfold bind.
    apply (with_exit_run _ _ _ _ _ _ Hbody E).
  - apply (getattr_var_dict _ _ _ _ _ Hp'). rewrite Hv.
    apply lookup_insert_eq.
Qed.

Lemma with_KStmt_closes_whatever_the_body_witness :
  ∃ w',
    with_KStmt 1 (raise (ValueError "body")) family_world =
      (Raise (ValueError "body") : result unit, w') ∧
    _current w' = [] ++ [0%nat] ∧
    KStmt__getattr__ 0 (name (fresh_block "A")) w' = (Ok (KStmtRef 1), w').
Proof.
  exact (with_KStmt_closes_whatever_the_body family_world [] 1%nat 0%nat
           (raise (ValueError "body")) (Raise (ValueError "body"))
           closing_world (fresh_block "A") (fresh_block "P") [] [] [] [] noop
           ltac:(lia) eq_refl eq_refl eq_refl eq_refl eq_refl eq_refl
           eq_refl eq_refl).
Defined.

(** X20: when the parent's break flag is set, closing a block raises
    [IllegalEmitAfterBreak] at the emission into the parent, and the
    close is left half done: the block is already off the list of open
    blocks, its scope is popped and its operation built, but the parent
    is unchanged and knows nothing of the block. *)
Theorem exit_under_broken_parent (w : World) (cur : list nat)
  (self parent : nat) (so po : KStmtObj) (rest : list (list entry))
  (top : list entry) (folded : pyobj) :
  _current w = cur ++ [parent; self] → parent ≠ self →
  heap w !! self = Some so → heap w !! parent = Some po →
  stmt_stack so = rest ++ [top] → fold_stmts top = Ok folded →
  has_break po = true →
  ∃ w' so',
    KStmt__exit__ self w = (Raise IllegalEmitAfterBreak, w') ∧
    _current w' = cur ++ [parent] ∧
    heap w' !! parent = Some po ∧
    heap w' !! self = Some so' ∧
    stmt_stack so' = rest ∧
    input_KStmts so' = last_subKStmts so ∪ input_KStmts so ∧
    op_body <$> _op so' = Some folded.
Proof.
  intros Hc Hne Hs Hp Hss Hf Hb.
  unfold KStmt__exit__.
  step_update. step_deref.
  erewrite bind_ok;
    [|erewrite pop_stmt_step;
      [rewrite Hf; reflexivity|heap_lookup|cbn; exact Hss]].
  erewrite bind_ok;
    [|apply (pop_current_ok _ (cur ++ [parent]) self); cbn;
      rewrite Hc, <- app_assoc; reflexivity].
  step_update.
  erewrite bind_ok; [|reflexivity]. cbn [_current set_current set_heap].
  rewrite last_snoc.
  step_deref. step_deref.
  erewrite bind_raise; [|eapply emit_broken; [heap_lookup|exact Hb]].
  eexists _, _. split; [reflexivity|].
  cbn [heap set_heap _current set_current].
  split; [reflexivity|].
  split. { rewrite !lookup_insert_ne by congruence. exact Hp. }
  split. { rewrite lookup_insert_eq. reflexivity. }
  cbn. repeat split; reflexivity.
Qed.

Lemma exit_under_broken_parent_witness :
  ∃ w' so',
    KStmt__exit__ 1 broken_parent_world = (Raise IllegalEmitAfterBreak, w') ∧
    _current w' = [] ++ [0%nat] ∧
    heap w' !! 0%nat = Some (set_has_break true (fresh_block "P")) ∧
    heap w' !! 1%nat = Some so' ∧
    stmt_stack so' = [] ∧
    input_KStmts so' =
      last_subKStmts (fresh_block "A") ∪ input_KStmts (fresh_block "A") ∧
    op_body <$> _op so' = Some noop.
Proof.
  exact (exit_under_broken_parent broken_parent_world [] 1%nat 0%nat
           (fresh_block "A") (set_has_break true (fresh_block "P")) [] []
           noop eq_refl ltac:(lia) eq_refl eq_refl eq_refl eq_refl eq_refl).
Defined.

(** ** Attribute lookup *)

Lemma find_none_iff {A} (f : A → bool) l :
  List.find f l = None ↔ ∀ x, x ∈ l → f x = false.
Proof.
  split.
  - intros H x Hx. apply list_elem_of_In in Hx.
    exact (List.find_none f l H x Hx).
  - intros H. destruct (List.find f l) as [x|] eqn:E; [|reflexivity].
    apply List.find_some in E as [Hin Hf].
    apply list_elem_of_In in Hin. rewrite (H x Hin) in Hf. discriminate.
Qed.

(** X21: [__getattr__] raises, with a [ValueError], exactly when nothing
    answers to the name: no entry of [var_dict], no tensor the block
    writes, no input block of that name and no tensor an input block
    writes; in every other case it returns a value.  It never changes
    the world. *)
Theorem getattr_raises_iff_unresolved (w : World) (self : nat) (o : KStmtObj)
  (a : string) :
  heap w !! self = Some o →
  ((∃ msg, KStmt__getattr__ self a w = (Raise (ValueError msg), w))
     ↔ unresolved w o a)
  ∧ (¬ unresolved w o a → ∃ v, KStmt__getattr__ self a w = (Ok v, w)).
Proof.
  intros Ho. unfold KStmt__getattr__, unresolved.
  rewrite (bind_ok _ _ _ _ _ (deref_ok _ _ _ Ho)).
  destruct (var_dict o !! a) as [v|] eqn:Hv.
  { split; [split|].
    - intros [msg H]. discriminate.
    - intros [H _]. discriminate.
    - eauto. }
  destruct (decide (a ∈ lhs_tensors o)) as [Hin|Hin].
  { rewrite bool_decide_eq_true_2 by exact Hin. split; [split|].
    - intros [msg H]. discriminate.
    - intros (_ & H & _). contradiction.
    - eauto. }
  rewrite bool_decide_eq_false_2 by exact Hin.
  set (named := λ k, match heap w !! k with
                     | Some ko => bool_decide (name ko = a) | None => false end).
  set (writes := λ k, match heap w !! k with
                      | Some ko => bool_decide (a ∈ lhs_tensors ko)
                      | None => false end).
  destruct (List.find named _) as [k|] eqn:E1.
  { apply List.find_some in E1 as [Hk Hn].
    apply list_elem_of_In, elem_of_elements in Hk.
    unfold named in Hn. destruct (heap w !! k) as [ko|] eqn:Hko; [|discriminate].
    apply bool_decide_eq_true in Hn.
    split; [split|].
    - intros [msg H]. discriminate.
    - intros (_ & _ & H). destruct (H k ko Hk Hko) as [Hne _]. contradiction.
    - eauto. }
  destruct (List.find writes _) as [k|] eqn:E2.
  { apply List.find_some in E2 as [Hk Hn].
    apply list_elem_of_In, elem_of_elements in Hk.
    unfold writes in Hn. destruct (heap w !! k) as [ko|] eqn:Hko; [|discriminate].
    apply bool_decide_eq_true in Hn.
    split; [split|].
    - intros [msg H]. discriminate.
    - intros (_ & _ & H). destruct (H k ko Hk Hko) as [_ Hni]. contradiction.
    - eauto. }
  assert (U : var_dict o !! a = None ∧ (a ∉ lhs_tensors o) ∧
              ∀ k ko, k ∈ input_KStmts o → heap w !! k = Some ko →
                      name ko ≠ a ∧ (a ∉ lhs_tensors ko)).
  { split; [exact Hv|]. split; [exact Hin|].
    intros k ko Hk Hko.
    pose proof (proj1 (find_none_iff _ _) E1 k
                  (proj2 (elem_of_elements _ _) Hk)) as F1.
    pose proof (proj1 (find_none_iff _ _) E2 k
                  (proj2 (elem_of_elements _ _) Hk)) as F2.
    unfold named in F1. unfold writes in F2. rewrite Hko in F1, F2.
    apply bool_decide_eq_false in F1, F2. auto. }
  destruct U as (_ & U2 & U3).
  split; [split|].
  - intros _. auto.
  - intros _. eauto.
  - intros Hn. exfalso. apply Hn. auto.
Qed.

Lemma getattr_raises_iff_unresolved_witness :
  ∃ msg, KStmt__getattr__ 0 "nidx" (world_of P0) =
         (Raise (ValueError msg), world_of P0).
Proof.
  refine (proj2 (proj1 (getattr_raises_iff_unresolved (world_of P0) 0%nat P0
                          "nidx" eq_refl)) _).
  split; [reflexivity|split].
  - apply not_elem_of_empty.
  - intros k ko Hk. exfalso. exact (not_elem_of_empty k Hk).
Defined.

(** ** Closing a block outside any other *)

Lemma exit_top_level_effects w self so rest top body :
  _current w = [self] →
  heap w !! self = Some so →
  stmt_stack so = rest ++ [top] → fold_stmts top = Ok body →
  ∃ w' so',
    KStmt__exit__ self w = (Ok tt, w') ∧
    _current w' = [] ∧
    heap w' !! self = Some so' ∧
    (∀ r, r ≠ self → heap w' !! r = heap w !! r) ∧
    stmt_stack so' = rest ∧ op_body <$> _op so' = Some body ∧
    name_with_prefix so' = name_with_prefix so ∧
    KStmt_ops w' = KStmt_ops w ++ [self] ∧
    last_KStmts w' =
      (last_KStmts w ∪ {[self]}) ∖ (last_subKStmts so ∪ input_KStmts so).
Proof.
  intros Hc Hs Hss Hf.
  unfold KStmt__exit__.
  step_update. step_deref.
  erewrite bind_ok;
    [|erewrite pop_stmt_step;
      [rewrite Hf; reflexivity|heap_lookup|cbn; exact Hss]].
  erewrite bind_ok;
    [|apply (pop_current_ok _ [] self); cbn; rewrite Hc; reflexivity].
  step_update.
  erewrite bind_ok; [|reflexivity]. cbn [_current set_current set_heap last].
  step_deref.
  eexists _, _. split; [reflexivity|].
  cbn. split; [reflexivity|].
  split. { rewrite lookup_insert_eq. reflexivity. }
  split. { intros r Hr. rewrite !lookup_insert_ne by congruence. reflexivity. }
  repeat split; reflexivity.
Qed.

(** X22: whenever the outermost open block closes, it is appended to the
    schedule's list of operations and becomes a last writer of the
    schedule, the blocks it depends on (its inputs, with its own last
    writers) stop being last writers, no other object is touched, and no
    block is open afterwards. *)
Theorem top_level_close_registers (w w' : World) (self : nat) :
  _current w = [self] →
  KStmt__exit__ self w = (Ok tt, w') →
  ∃ so,
    heap w !! self = Some so ∧
    _current w' = [] ∧
    KStmt_ops w' = KStmt_ops w ++ [self] ∧
    last_KStmts w' =
      (last_KStmts w ∪ {[self]}) ∖ (last_subKStmts so ∪ input_KStmts so) ∧
    (∀ x, x ∈ last_subKStmts so ∪ input_KStmts so → x ∉ last_KStmts w') ∧
    (∀ r, r ≠ self → heap w' !! r = heap w !! r).
Proof.
  intros Hc H.
  destruct (exit_top_preconditions _ _ _ Hc H)
    as (so & rest & top & body & Hs & Hss & Hf).
  destruct (exit_top_level_effects w self so rest top body Hc Hs Hss Hf)
    as (w'' & so' & E & Hc' & _ & Hfr & _ & _ & _ & Hops & Hl).
  rewrite E in H. injection H as <-.
  exists so. repeat split; try assumption.
  intros x Hx. rewrite Hl. clear -Hx. set_solver.
Qed.

Lemma top_level_close_registers_witness :
  ∃ so,
    heap (world_of P_S1) !! 0%nat = Some so ∧
    _current (KStmt__exit__ 0 (world_of P_S1)).2 = [] ∧
    KStmt_ops (KStmt__exit__ 0 (world_of P_S1)).2 =
      KStmt_ops (world_of P_S1) ++ [0%nat] ∧
    last_KStmts (KStmt__exit__ 0 (world_of P_S1)).2 =
      (last_KStmts (world_of P_S1) ∪ {[0%nat]})
        ∖ (last_subKStmts so ∪ input_KStmts so) ∧
    (∀ x, x ∈ last_subKStmts so ∪ input_KStmts so →
          x ∉ last_KStmts (KStmt__exit__ 0 (world_of P_S1)).2) ∧
    (∀ r, r ≠ 0%nat →
          heap (KStmt__exit__ 0 (world_of P_S1)).2 !! r =
          heap (world_of P_S1) !! r).
Proof.
  refine (top_level_close_registers (world_of P_S1)
            (KStmt__exit__ 0 (world_of P_S1)).2 0%nat eq_refl _).
  vm_compute. reflexivity.
Defined.

(** ** [return_], [break_] and what may follow them *)

(** X23: [return_] closes nothing: it casts the value to the return type
    of the current block, appends the node and sets the return flag, and
    the block goes on accepting statements in the same scope after it
    (the break flag, which is what [emit] tests, is not set). *)
Theorem return_does_not_close_scope (w : World) (cur : list nat) (c : nat)
  (o : KStmtObj) (rest : list (list entry)) (top : list entry)
  (v : expr) (s : pyobj) :
  _current w = cur ++ [c] → heap w !! c = Some o →
  has_break o = false → stmt_stack o = rest ++ [top] →
  ∃ w' o',
    bind (return_ v) (λ _, emit_stmt s) w = (Ok tt, w') ∧
    heap w' !! c = Some o' ∧
    stmt_stack o' =
      rest ++ [top ++ [Obj (Return (Cast (get_tvm_dtype (ret_dtype o) None) v));
                       Obj s]] ∧
    has_return o' = true ∧ has_break o' = false.
Proof.
  intros Hc Ho Hb Hs.
  eexists _, _. split.
  - rewrite (bind_ok _ _ _ _ _ (return_run _ _ _ _ _ _ v Hc Ho Hb Hs)).
    unfold emit_stmt.
    erewrite bind_ok; [|eapply get_current_ok; cbn; exact Hc].
    eapply emit_ok; [heap_lookup|exact Hb|reflexivity].
  - cbn. rewrite lookup_insert_eq. split; [reflexivity|]. cbn.
    rewrite <- app_assoc. repeat split; first [reflexivity|assumption].
Qed.

Lemma return_does_not_close_scope_witness :
  ∃ w' o',
    bind (return_ (IntImm 1)) (λ _, emit_stmt S2) (world_of P_S1) =
      (Ok tt, w') ∧
    heap w' !! 0%nat = Some o' ∧
    stmt_stack o' =
      [] ++ [[Obj S1] ++
             [Obj (Return (Cast (get_tvm_dtype (ret_dtype P_S1) None)
                             (IntImm 1)));
              Obj S2]] ∧
    has_return o' = true ∧ has_break o' = false.
Proof.
  exact (return_does_not_close_scope (world_of P_S1) [] 0%nat P_S1 []
           [Obj S1] (IntImm 1) S2 eq_refl eq_refl eq_refl eq_refl).
Defined.

(** X24: while the break flag of a block is set, a statement emitted
    into it is refused; but [with if_(cond): pass] is not (its entry only
    opens a scope), and its exit unsets the flag.  So after it the same
    statement is accepted, in the very scope the break was emitted
    into. *)
Theorem empty_if_lifts_break (w : World) (cur : list nat) (c : nat)
  (o : KStmtObj) (rest : list (list entry)) (top : list entry)
  (cond : expr) (s : pyobj) :
  _current w = cur ++ [c] → heap w !! c = Some o →
  has_break o = true → stmt_stack o = rest ++ [top] →
  emit c (Obj s) w = (Raise IllegalEmitAfterBreak, w)
  ∧ ∃ w' o',
      bind (with_ (if_ cond) (λ _, ret tt)) (λ _, emit_stmt s) w = (Ok tt, w') ∧
      heap w' !! c = Some o' ∧
      stmt_stack o' =
        rest ++ [top ++ [Obj (IfThenElse cond noop None); Obj s]] ∧
      has_break o' = false.
Proof.
  intros Hc Ho Hb Hs. split; [apply (emit_broken _ _ _ _ Ho Hb)|].
  eexists _, _. split.
  - erewrite bind_ok; cycle 1.
    { eapply with_run.
      - exact (if_entry_run _ _ _ _ cond Hc Ho).
      - reflexivity.
      - eapply (if_exit_run _ c _ rest top [] noop cond).
        + unfold enter_scope. heap_lookup.
        + cbn. rewrite Hs. reflexivity.
        + reflexivity. }
    unfold emit_stmt.
    erewrite bind_ok; [|eapply get_current_ok; cbn; exact Hc].
    eapply emit_ok; [unfold close_scope; heap_lookup|reflexivity|reflexivity].
  - cbn. rewrite lookup_insert_eq. split; [reflexivity|]. cbn.
    rewrite <- app_assoc. split; reflexivity.
Qed.

Lemma empty_if_lifts_break_witness :
  emit 0 (Obj S1) (world_of (block_with [[Obj Break]] true 1)) =
    (Raise IllegalEmitAfterBreak, world_of (block_with [[Obj Break]] true 1))
  ∧ ∃ w' o',
      bind (with_ (if_ c1) (λ _, ret tt)) (λ _, emit_stmt S1)
        (world_of (block_with [[Obj Break]] true 1)) = (Ok tt, w') ∧
      heap w' !! 0%nat = Some o' ∧
      stmt_stack o' =
        [] ++ [[Obj Break] ++ [Obj (IfThenElse c1 noop None); Obj S1]] ∧
      has_break o' = false.
Proof.
  exact (empty_if_lifts_break (world_of (block_with [[Obj Break]] true 1)) []
           0%nat (block_with [[Obj Break]] true 1) [] [Obj Break] c1 S1
           eq_refl eq_refl eq_refl eq_refl).
Defined.

(** ** The argument lists of [def_] *)

Lemma assign_names_ok arg_names : ∀ names done,
  (length arg_names ≤ length names)%nat →
  assign_names (done ++ names) (length done) arg_names =
  Ok (done ++ arg_names ++ drop (length arg_names) names).
Proof.
  induction arg_names as [|a rest IH]; intros names done H.
  - reflexivity.
  - destruct names as [|n names]; [simpl in H; lia|].
    simpl. rewrite decide_True by (rewrite length_app; simpl; lia).
    replace (<[length done := a]> (done ++ n :: names))
      with ((done ++ [a]) ++ names).
    2: { rewrite insert_app_r_alt by lia. rewrite Nat.sub_diag. simpl.
         rewrite <- app_assoc. reflexivity. }
    replace (S (length done)) with (length (done ++ [a]))
      by (rewrite length_app; simpl; lia).
    rewrite IH by (simpl in H; lia).
    rewrite <- app_assoc. reflexivity.
Qed.

Lemma assign_names_short arg_names : ∀ names done,
  (length names < length arg_names)%nat →
  assign_names (done ++ names) (length done) arg_names =
  Raise (IndexError "list assignment index out of range").
Proof.
  induction arg_names as [|a rest IH]; intros names done H.
  - simpl in H. lia.
  - destruct names as [|n names].
    + simpl. rewrite app_nil_r. rewrite decide_False by lia. reflexivity.
    + simpl. rewrite decide_True by (rewrite length_app; simpl; lia).
      replace (<[length done := a]> (done ++ n :: names))
        with ((done ++ [a]) ++ names).
      2: { rewrite insert_app_r_alt by lia. rewrite Nat.sub_diag. simpl.
           rewrite <- app_assoc. reflexivity. }
      replace (S (length done)) with (length (done ++ [a]))
        by (rewrite length_app; simpl; lia).
      apply IH. simpl in H. lia.
Qed.

(** X26: explicit [arg_names] replace a prefix of the function's variable
    names and leave the rest: the result is [arg_names] followed by the
    names beyond them.  More [arg_names] than the function has variables
    raise an index error; without [arg_names] the names are the
    function's. *)
Theorem rename_params_prefix (names arg_names : list string) :
  ((length arg_names ≤ length names)%nat →
     rename_params names (Some arg_names) =
     Ok (arg_names ++ drop (length arg_names) names))
  ∧ ((length names < length arg_names)%nat →
     rename_params names (Some arg_names) =
     Raise (IndexError "list assignment index out of range"))
  ∧ rename_params names None = Ok names.
Proof.
  split; [|split]; [| |reflexivity].
  - intros H. exact (assign_names_ok arg_names names [] H).
  - intros H. exact (assign_names_short arg_names names [] H).
Qed.

Lemma rename_params_prefix_witness :
  rename_params ["a"; "b"; "tmp"] (Some ["x"; "y"]) =
    Ok (["x"; "y"] ++ drop (length ["x"; "y"]) ["a"; "b"; "tmp"])
  ∧ rename_params ["a"] (Some ["x"; "y"]) =
      Raise (IndexError "list assignment index out of range").
Proof.
  split.
  - exact (proj1 (rename_params_prefix ["a"; "b"; "tmp"] ["x"; "y"])
             ltac:(simpl; lia)).
  - exact (proj1 (proj2 (rename_params_prefix ["a"] ["x"; "y"]))
             ltac:(simpl; lia)).
Defined.








(** * Attributes that the constructs leave alone *)

Lemma keeps_refl {X} (f : KStmtObj → X) w : keeps f w w.
Proof. intros c o H. eauto. Qed.

Lemma keeps_heap {X} (f : KStmtObj → X) w w' : heap w' = heap w → keeps f w w'.
Proof. intros E c o H. rewrite E. eauto. Qed.

Lemma keeps_trans {X} (f : KStmtObj → X) w1 w2 w3 :
  keeps f w1 w2 → keeps f w2 w3 → keeps f w1 w3.
Proof.
  intros H1 H2 c o Ho. destruct (H1 c o Ho) as (o2 & Ho2 & E2).
  destruct (H2 c o2 Ho2) as (o3 & Ho3 & E3). exists o3.
  split; [exact Ho3|congruence].
Qed.

Section Frame.
Context {X : Type} (cur : bool) (f : KStmtObj → X).

Lemma Frames_same {A} (m : M A) :
  (∀ w r w', m w = (r, w') → w' = w) → Frames cur f m.
Proof.
  intros H w r w' E. rewrite (H w r w' E). split; [reflexivity|].
  apply keeps_refl.
Qed.

Lemma Frames_ret {A} (a : A) : Frames cur f (ret a).
Proof. apply Frames_same. intros w r w' [= _ <-]. reflexivity. Qed.

Lemma Frames_raise {A} e : Frames cur f (@raise A e).
Proof. apply Frames_same. intros w r w' [= _ <-]. reflexivity. Qed.

Lemma Frames_bind {A B} (m : M A) (k : A → M B) :
  Frames cur f m → (∀ a, Frames cur f (k a)) → Frames cur f (bind m k).
Proof.
  intros Hm Hk w r w' E. unfold bind in E.
  destruct (m w) as [[a|e] w1] eqn:Em.
  - destruct (Hm w _ _ Em) as [C1 K1]. destruct (Hk a w1 _ _ E) as [C2 K2].
    split; [intros Hc; rewrite (C2 Hc); exact (C1 Hc)|].
    exact (keeps_trans f _ _ _ K1 K2).
  - injection E as <- <-. exact (Hm w _ _ Em).
Qed.

Lemma Frames_deref r : Frames cur f (deref r).
Proof.
  apply Frames_same. intros w x w'. unfold deref.
  destruct (heap w !! r); intros [= _ <-]; reflexivity.
Qed.

Lemma Frames_get_current : Frames cur f get_current.
Proof.
  apply Frames_same. intros w x w'. unfold get_current.
  destruct (last (_current w)); intros [= _ <-]; reflexivity.
Qed.

Lemma Frames_get_len : Frames cur f get_len.
Proof. apply Frames_same. intros w x w' [= _ <-]. reflexivity. Qed.

Lemma Frames_update r g :
  (∀ o, f (g o) = f o) → Frames cur f (update r g).
Proof.
  intros Hg w x w' E. unfold update, bind, deref in E.
  destruct (heap w !! r) as [o|] eqn:Ho; injection E as <- <-.
  - split; [reflexivity|]. intros c oc Hc. cbn.
    destruct (decide (c = r)) as [->|Hne].
    + rewrite lookup_insert_eq. rewrite Ho in Hc. injection Hc as <-. eauto.
    + rewrite lookup_insert_ne by congruence. eauto.
  - split; [reflexivity|]. apply keeps_refl.
Qed.

Lemma Frames_cls_for_level_incr : Frames cur f cls_for_level_incr.
Proof.
  intros w x w'. unfold cls_for_level_incr.
  destruct (cls_for_level w); intros [= _ <-];
    (split; [reflexivity|apply keeps_heap; reflexivity]).
Qed.

Lemma Frames_cls_clear_has_break : Frames cur f cls_clear_has_break.
Proof.
  intros w x w' [= _ <-]. split; [reflexivity|].
  apply keeps_heap. reflexivity.
Qed.

Lemma Frames_getattr self a : Frames cur f (KStmt__getattr__ self a).
Proof.
  apply Frames_same. intros w x w'. unfold KStmt__getattr__, bind, deref.
  destruct (heap w !! self) as [o|]; [|intros [= _ <-]; reflexivity].
  destruct (var_dict o !! a); [intros [= _ <-]; reflexivity|].
  destruct (bool_decide _); [intros [= _ <-]; reflexivity|].
  destruct (List.find _ _); [intros [= _ <-]; reflexivity|].
  destruct (List.find _ _); intros [= _ <-]; reflexivity.
Qed.

Lemma Frames_with_exit {B} (body : M B) (exit : M unit) :
  Frames cur f body → Frames cur f exit → Frames cur f (with_exit body exit).
Proof.
  intros Hb He w r w' E. unfold with_exit in E.
  destruct (body w) as [[b|e] w1] eqn:Eb;
    destruct (exit w1) as [[u|e'] w2] eqn:Ee; injection E as <- <-;
    destruct (Hb w _ _ Eb) as [C1 K1]; destruct (He w1 _ _ Ee) as [C2 K2];
    (split; [intros Hc; rewrite (C2 Hc); exact (C1 Hc)
            |exact (keeps_trans f _ _ _ K1 K2)]).
Qed.

(** The setters that the constructs use, none of which writes [f] *)
Hypothesis f_stmt_stack : ∀ v o, f (set_stmt_stack v o) = f o.
Hypothesis f_has_break : ∀ v o, f (set_has_break v o) = f o.
Hypothesis f_for_level : ∀ v o, f (set_for_level v o) = f o.
Hypothesis f_var_dict : ∀ v o, f (set_var_dict v o) = f o.
Hypothesis f_subKStmts : ∀ v o, f (set_subKStmts v o) = f o.
Hypothesis f_input_KStmts : ∀ v o, f (set_input_KStmts v o) = f o.
Hypothesis f_lhs_tensors : ∀ v o, f (set_lhs_tensors v o) = f o.
Hypothesis f_last_subKStmts : ∀ v o, f (set_last_subKStmts v o) = f o.
Hypothesis f_name_with_prefix : ∀ v o, f (set_name_with_prefix v o) = f o.
Hypothesis f_op : ∀ v o, f (set_op v o) = f o.

Ltac frames_step :=
  first
    [ apply Frames_ret | apply Frames_raise | apply Frames_deref
    | apply Frames_get_current | apply Frames_get_len
    | apply Frames_cls_for_level_incr | apply Frames_cls_clear_has_break
    | apply Frames_getattr
    | apply Frames_update; intros;
      first [ apply f_stmt_stack | apply f_has_break | apply f_for_level
            | apply f_var_dict | apply f_subKStmts | apply f_input_KStmts
            | apply f_lhs_tensors | apply f_last_subKStmts
            | apply f_name_with_prefix | apply f_op ]
    | apply Frames_bind; [|intros ?]
    | match goal with
      | |- Frames _ _ (match ?x with _ => _ end) => destruct x
      end ].
Ltac frames := repeat frames_step.

Lemma Frames_emit self e : Frames cur f (emit self e).
Proof. unfold emit. frames. Qed.

Lemma Frames_push_scope self : Frames cur f (push_scope self).
Proof. unfold push_scope. frames. Qed.

Lemma Frames_pop_stmt self : Frames cur f (pop_stmt self).
Proof. unfold pop_stmt. frames. Qed.

Lemma Frames_prev_entry self err : Frames cur f (prev_entry self err).
Proof. unfold prev_entry. frames. Qed.

Lemma Frames_pop_entry self : Frames cur f (pop_entry self).
Proof. unfold pop_entry. frames. Qed.

Lemma Frames_emit_stmt s : Frames cur f (emit_stmt s).
Proof. unfold emit_stmt. frames; try apply Frames_emit. Qed.

Lemma Frames_break_ : Frames cur f break_.
Proof. unfold break_. frames; try apply Frames_emit. Qed.

Lemma Frames_if_exit_cb c cond : Frames cur f (if_exit_cb c cond).
Proof.
  unfold if_exit_cb, clear_has_break.
  apply Frames_bind; [apply Frames_pop_stmt|intros ?].
  frames; try apply Frames_emit.
Qed.

Lemma Frames_else_exit_cb c prev : Frames cur f (else_exit_cb c prev).
Proof.
  unfold else_exit_cb, clear_has_break.
  apply Frames_bind; [apply Frames_pop_stmt|intros ?].
  frames; try apply Frames_emit.
Qed.

Lemma Frames_elif_exit_cb c prev cond :
  Frames cur f (elif_exit_cb c prev cond).
Proof.
  unfold elif_exit_cb, clear_has_break.
  apply Frames_bind; [apply Frames_pop_stmt|intros ?].
  frames; try apply Frames_emit.
Qed.

Lemma Frames_while_exit_cb c cond : Frames cur f (while_exit_cb c cond).
Proof.
  unfold while_exit_cb, clear_has_break.
  apply Frames_bind; [apply Frames_pop_stmt|intros ?].
  frames; try apply Frames_emit.
Qed.

Lemma Frames_for_exit_cb c lv b e kind :
  Frames cur f (for_exit_cb c lv b e kind).
Proof. unfold for_exit_cb. frames; try apply Frames_emit. Qed.

Lemma Frames_if_ cond : Frames cur f (if_ cond).
Proof.
  unfold if_. apply Frames_bind; [apply Frames_get_current|intros c].
  apply Frames_bind; [apply Frames_push_scope|intros _]. apply Frames_ret.
Qed.

Lemma Frames_else_ : Frames cur f else_.
Proof.
  unfold else_. apply Frames_bind; [apply Frames_get_current|intros c].
  apply Frames_bind; [apply Frames_prev_entry|intros prev].
  destruct prev as [p|g]; [|apply Frames_raise].
  destruct p; try apply Frames_raise.
  destruct (bool_decide _); [apply Frames_raise|].
  apply Frames_bind; [apply Frames_pop_entry|intros _].
  apply Frames_bind; [apply Frames_push_scope|intros _]. apply Frames_ret.
Qed.

Lemma Frames_elif_ cond : Frames cur f (elif_ cond).
Proof.
  unfold elif_. apply Frames_bind; [apply Frames_get_current|intros c].
  apply Frames_bind; [apply Frames_prev_entry|intros prev].
  destruct prev as [p|g]; [|apply Frames_raise].
  destruct p; try apply Frames_raise.
  apply Frames_bind; [apply Frames_pop_entry|intros _].
  apply Frames_bind; [apply Frames_push_scope|intros _]. apply Frames_ret.
Qed.

Lemma Frames_while_ cond : Frames cur f (while_ cond).
Proof.
  unfold while_. apply Frames_bind; [apply Frames_get_current|intros c].
  apply Frames_bind; [apply Frames_push_scope|intros _].
  frames.
Qed.

Hypothesis f_nidx : ∀ v o, f (set_nidx v o) = f o.

Lemma Frames_get_nidx c : Frames cur f (get_nidx c).
Proof. unfold get_nidx. frames. Qed.

Lemma Frames_loop_name n : Frames cur f (loop_name n).
Proof.
  unfold loop_name, py_chr. destruct (n <? 3); [|apply Frames_ret].
  destruct (0 <=? 105 + n); [apply Frames_ret|apply Frames_raise].
Qed.


Lemma ExitFrames_if_ cond : ExitFrames cur f (if_ cond).
Proof.
  intros w ws w' E. unfold if_ in E.
  apply bind_inv in E as (c & w1 & _ & E).
  apply bind_inv in E as (u & w2 & _ & E). injection E as <- _.
  apply Frames_if_exit_cb.
Qed.

Lemma ExitFrames_else_ : ExitFrames cur f else_.
Proof.
  intros w ws w' E. unfold else_ in E.
  apply bind_inv in E as (c & w1 & _ & E).
  apply bind_inv in E as (prev & w2 & _ & E).
  destruct prev as [p|g]; [|discriminate].
  destruct p; try discriminate.
  destruct (bool_decide _); [discriminate|].
  apply bind_inv in E as (u1 & w3 & _ & E).
  apply bind_inv in E as (u2 & w4 & _ & E). injection E as <- _.
  apply Frames_else_exit_cb.
Qed.

Lemma ExitFrames_elif_ cond : ExitFrames cur f (elif_ cond).
Proof.
  intros w ws w' E. unfold elif_ in E.
  apply bind_inv in E as (c & w1 & _ & E).
  apply bind_inv in E as (prev & w2 & _ & E).
  destruct prev as [p|g]; [|discriminate].
  destruct p; try discriminate.
  apply bind_inv in E as (u1 & w3 & _ & E).
  apply bind_inv in E as (u2 & w4 & _ & E). injection E as <- _.
  apply Frames_elif_exit_cb.
Qed.

Lemma ExitFrames_while_ cond : ExitFrames cur f (while_ cond).
Proof.
  intros w ws w' E. unfold while_ in E.
  apply bind_inv in E as (c & w1 & _ & E).
  apply bind_inv in E as (u1 & w2 & _ & E).
  apply bind_inv in E as (u2 & w3 & _ & E). injection E as <- _.
  apply Frames_while_exit_cb.
Qed.

Lemma ExitFrames_for_ b e nm dt kind : ExitFrames cur f (for_ b e nm dt kind).
Proof.
  intros w ws w' E. unfold for_ in E.
  apply bind_inv in E as (c & w1 & _ & E).
  apply bind_inv in E as (nm' & w2 & _ & E).
  apply bind_inv in E as (u1 & w3 & _ & E).
  apply bind_inv in E as (u2 & w4 & _ & E). injection E as <- _.
  apply Frames_for_exit_cb.
Qed.

Lemma Frames_with {A B} (enter : M (WithScope A)) (body : A → M B) :
  Frames cur f enter → ExitFrames cur f enter →
  (∀ v, Frames cur f (body v)) → Frames cur f (with_ enter body).
Proof.
  intros He Hx Hb w r w' E. unfold with_, bind in E.
  destruct (enter w) as [[ws|e] w1] eqn:Ee.
  - destruct (He w _ _ Ee) as [C1 K1].
    destruct (Frames_with_exit _ _ (Hb (enter_value ws)) (Hx _ _ _ Ee)
                w1 _ _ E) as [C2 K2].
    split; [intros Hc; rewrite (C2 Hc); exact (C1 Hc)|].
    exact (keeps_trans f _ _ _ K1 K2).
  - injection E as <- <-. exact (He w _ _ Ee).
Qed.

Lemma Frames_return_ (f_has_return : ∀ v o, f (set_has_return v o) = f o)
  v : Frames cur f (return_ v).
Proof.
  unfold return_. apply Frames_bind; [apply Frames_get_len|intros n].
  destruct (bool_decide _); [apply Frames_raise|].
  apply Frames_bind; [apply Frames_get_current|intros c].
  apply Frames_bind; [apply Frames_deref|intros o].
  apply Frames_bind; [apply Frames_emit|intros _].
  apply Frames_update. intros o'. apply f_has_return.
Qed.

(** Entering and closing a block change the list of open blocks *)
Hypothesis cur_off : cur = false.

Lemma Frames_pop_current : Frames cur f pop_current.
Proof.
  intros w r w'. unfold pop_current.
  destruct (_current w); intros [= _ <-];
    (split; [rewrite cur_off; discriminate|apply keeps_heap; reflexivity]).
Qed.

Lemma Frames_KStmt__enter__ s : Frames cur f (KStmt__enter__ s).
Proof.
  intros w r w' [= _ <-].
  split; [rewrite cur_off; discriminate|apply keeps_heap; reflexivity].
Qed.

Lemma Frames_KStmt__exit__ self : Frames cur f (KStmt__exit__ self).
Proof.
  unfold KStmt__exit__.
  apply Frames_bind; [frames|intros _].
  apply Frames_bind; [frames|intros o].
  apply Frames_bind; [apply Frames_pop_stmt|intros body].
  apply Frames_bind; [apply Frames_pop_current|intros _].
  apply Frames_bind; [frames|intros _].
  apply Frames_bind.
  { apply Frames_same. intros w r w' [= _ <-]. reflexivity. }
  intros c. destruct (last c) as [superKStmt|].
  - repeat first [apply Frames_emit | frames_step].
  - apply Frames_bind; [frames|intros o'].
    intros w r w' [= _ <-].
    split; [rewrite cur_off; discriminate|apply keeps_heap; reflexivity].
Qed.

Lemma Frames_with_KStmt {B} s (body : M B) :
  Frames cur f body → Frames cur f (with_KStmt s body).
Proof.
  intros Hb. unfold with_KStmt.
  apply Frames_bind; [apply Frames_KStmt__enter__|intros self].
  apply Frames_with_exit; [exact Hb|apply Frames_KStmt__exit__].
Qed.
End Frame.

(** ** The return flag of a block during a trace *)








(** ** Entering [for_] *)

Lemma get_nidx_inv c w n w' :
  get_nidx c w = (Ok n, w') →
  ∃ o, heap w !! c = Some o ∧ nidx o = Some n ∧ w' = w.
Proof.
  unfold get_nidx. intros H. apply bind_inv in H as (o & w1 & Hd & H).
  apply deref_inv in Hd as [Ho ->]. exists o.
  destruct (nidx o) as [m|].
  - injection H as <- <-. auto.
  - apply bind_inv in H as (v & w2 & _ & H). discriminate.
Qed.

Lemma loop_name_inv n w x w' : loop_name n w = (Ok x, w') → w' = w.
Proof.
  unfold loop_name, py_chr. destruct (n <? 3); [|intros [= _ <-]; reflexivity].
  destruct (0 <=? 105 + n); intros [= _ <-] || intros [=]; reflexivity.
Qed.

Lemma cls_incr_inv w w' :
  cls_for_level_incr w = (Ok tt, w') →
  ∃ n, cls_for_level w = Some n ∧ w' = set_cls_for_level (Some (n + 1)) w.
Proof.
  unfold cls_for_level_incr. destruct (cls_for_level w) as [n|]; [|discriminate].
  intros [= <-]. eauto.
Qed.

(** Whenever [for_] enters, under the default name or another: a scope
    is opened on the current block, the class attribute [for_level] is
    raised, and the block's own loop depth, break flag and return flag
    are what they were. *)
Lemma for_entry_inv w cur c o b e nm dt kind ws w1 :
  _current w = cur ++ [c] → heap w !! c = Some o →
  for_ b e nm dt kind w = (Ok ws, w1) →
  ∃ nm' o1 n,
    ws = mkWithScope (Var nm' dt)
           (for_exit_cb c (Var nm' dt) b (loop_extent b e) kind) ∧
    heap w1 = <[c := o1]> (heap w) ∧ _current w1 = _current w ∧
    cls_for_level w = Some n ∧ cls_for_level w1 = Some (n + 1) ∧
    cls_has_break w1 = cls_has_break w ∧
    stmt_stack o1 = stmt_stack o ++ [[]] ∧ for_level o1 = for_level o ∧
    has_break o1 = has_break o ∧ (nm ≠ "i" → nm' = nm).
Proof.
  intros Hc Ho H. unfold for_ in H.
  rewrite (bind_ok _ _ _ _ _ (get_current_ok _ _ _ Hc)) in H.
  apply bind_inv in H as (nm' & w2 & Hn & H).
  assert (∃ o2, heap w2 = <[c := o2]> (heap w) ∧ _current w2 = _current w ∧
                cls_for_level w2 = cls_for_level w ∧
                cls_has_break w2 = cls_has_break w ∧
                stmt_stack o2 = stmt_stack o ∧ for_level o2 = for_level o ∧
                has_break o2 = has_break o ∧ (nm ≠ "i" → nm' = nm))
    as (o2 & Hh2 & Hc2 & Hl2 & Hb2 & Hs2 & Hf2 & Hk2 & Hnm).
  { destruct (String.eqb_spec nm "i") as [->|Hne].
    - apply bind_inv in Hn as (n & wa & Hg & Hn).
      apply get_nidx_inv in Hg as (oa & Hoa & Hna & ->).
      apply bind_inv in Hn as (x & wb & Hx & Hn).
      apply loop_name_inv in Hx as ->.
      apply bind_inv in Hn as (n' & wc & Hg & Hn).
      apply get_nidx_inv in Hg as (oc & Hoc & Hnc & ->).
      apply bind_inv in Hn as ([] & wd & Hu & Hn).
      apply update_inv in Hu as (od & Hod & ->). injection Hn as _ <-.
      rewrite Ho in Hod. injection Hod as <-.
      exists (set_nidx (Some (n' + 1)) o). cbn.
      repeat split; try reflexivity. intros Hx. contradiction.
    - injection Hn as <- <-. exists o.
      rewrite (insert_id _ _ _ Ho). repeat split; reflexivity. }
  apply bind_inv in H as ([] & w3 & Hp & H).
  apply update_inv in Hp as (o3 & Ho3 & ->).
  rewrite Hh2, lookup_insert_eq in Ho3. injection Ho3 as <-.
  apply bind_inv in H as ([] & w4 & Hi & H).
  apply cls_incr_inv in Hi as (n & Hn4 & ->). injection H as <- <-.
  exists nm', (set_stmt_stack (stmt_stack o2 ++ [[]]) o2), n. cbn.
  rewrite Hh2, insert_insert_eq, Hs2.
  cbn in Hn4. rewrite Hl2 in Hn4.
  repeat split; first [reflexivity | assumption].
Qed.

(** ** The loop [for_] on an open block *)

(** C1: the exit of [for_] does not fold.  On every state in which a
    block is open and [for_] can be entered with a known kind, the
    callback pops nothing: it appends the node [For] to the scope that is
    on top, which is the loop's own scope, and the body field of the node
    is the block object, so that after
    [with for_(b, e): <emit ss>] the scope of the loop is still on the
    stack, holding [ss] followed by the node; the extent of the node is
    [e] for a zero [b] and [e - b] otherwise.  The flag cleared is the
    one of the class: with the block's break flag set the callback raises
    and the flag is still set.  [while_] on the same body folds its
    scope and emits into the enclosing one. *)
Theorem for_exit_does_not_fold :
  (∀ w c o rest l lv b e kind k n,
     kind_id kind = Ok k → cls_for_level w = Some n →
     heap w !! c = Some o → has_break o = false →
     stmt_stack o = rest ++ [l] →
     ∃ w' o',
       for_exit_cb c lv b e kind w = (Ok tt, w') ∧
       heap w' !! c = Some o' ∧
       stmt_stack o' = rest ++ [l ++ [Obj (For lv b e k (KStmtRef c))]] ∧
       has_break o' = has_break o ∧ cls_has_break w' = Some false)
  ∧ (∀ w cur c o b e nm dt kind k ws w1 ss,
       _current w = cur ++ [c] → heap w !! c = Some o →
       has_break o = false → kind_id kind = Ok k →
       for_ b e nm dt kind w = (Ok ws, w1) →
       ∃ nm' w' o',
         with_ (for_ b e nm dt kind) (λ _, emit_all c ss) w = (Ok tt, w') ∧
         heap w' !! c = Some o' ∧
         stmt_stack o' =
           stmt_stack o ++
           [ss ++ [Obj (For (Var nm' dt) b (loop_extent b e) k (KStmtRef c))]]
         ∧ (nm ≠ "i" → nm' = nm))
  ∧ (∀ w c o lv b e kind k n,
       kind_id kind = Ok k → cls_for_level w = Some n →
       heap w !! c = Some o → has_break o = true →
       ∃ w',
         for_exit_cb c lv b e kind w = (Raise IllegalEmitAfterBreak, w') ∧
         heap w' = heap w ∧ cls_has_break w' = Some false)
  ∧ (∀ w cur c o rest top cond ss,
       _current w = cur ++ [c] → heap w !! c = Some o →
       has_break o = false → stmt_stack o = rest ++ [top] →
       entries_ok ss = true →
       ∃ w' o',
         with_ (while_ cond) (λ _, emit_all c ss) w = (Ok tt, w') ∧
         heap w' !! c = Some o' ∧
         stmt_stack o' =
           rest ++ [top ++ [Obj (While cond (scope_denotation ss))]]).
Proof.
  split; [|split; [|split]].
  - intros w c o rest l lv b e kind k n Hk Hn Ho Hb Hs.
    eexists _, _. split; [exact (for_exit_cb_run _ _ _ _ _ lv b e _ _ _
                                   Hk Hn Ho Hb Hs)|].
    cbn. rewrite lookup_insert_eq. repeat split; reflexivity.
  - intros w cur c o b e nm dt kind k ws w1 ss Hc Ho Hb Hk He.
    destruct (for_entry_inv _ _ _ _ _ _ _ _ _ _ _ Hc Ho He)
      as (nm' & o1 & n & -> & Hh & Hc1 & Hn & Hn1 & _ & Hs1 & _ & Hb1 & Hnm).
    assert (Ho1 : heap w1 !! c = Some o1) by (rewrite Hh; apply lookup_insert_eq).
    exists nm'. eexists _, _. split.
    + eapply with_run; [exact He| |].
      * cbn. eapply emit_all_ok;
          [exact Ho1|rewrite Hb1; exact Hb|exact Hs1].
      * eapply for_exit_cb_run;
          [exact Hk|cbn; exact Hn1|heap_lookup|cbn; rewrite Hb1; exact Hb
          |cbn; reflexivity].
    + cbn. rewrite lookup_insert_eq. split; [reflexivity|].
      split; [reflexivity|exact Hnm].
  - intros w c o lv b e kind k n Hk Hn Ho Hb.
    eexists. split; [exact (for_exit_cb_after_break _ _ _ lv b e _ _ _
                              Hk Hn Ho Hb)|].
    split; reflexivity.
  - intros w cur c o rest top cond ss Hc Ho Hb Hs Hss.
    eexists _, _. split.
    + eapply with_run; [exact (while_entry_run _ _ _ _ cond Hc Ho)| |].
      * cbn. eapply emit_all_ok;
          [unfold enter_loop; heap_lookup|exact Hb|cbn; reflexivity].
      * eapply (while_exit_run _ c _ rest top ([] ++ ss)
                  (scope_denotation ss) cond).
        -- heap_lookup.
        -- cbn. rewrite Hs. reflexivity.
        -- cbn. rewrite fold_stmts_spec, (entries_ok_checked _ Hss).
           reflexivity.
    + unfold close_loop. cbn. rewrite lookup_insert_eq.
      split; reflexivity.
Qed.

Lemma for_exit_does_not_fold_witness :
  stack_of_P
    (with_ (for_ (IntImm 0) (IntImm 5) "x" "int32" "serial")
       (λ _, emit_all 0 [Obj S1]) (cls_world P0)) =
    Some [[]; [Obj S1;
               Obj (For (Var "x" "int32") (IntImm 0) (IntImm 5) SERIAL
                      (KStmtRef 0))]]
  ∧ ∃ nm' w' o',
    with_ (for_ (IntImm 0) (IntImm 5) "x" "int32" "serial")
      (λ _, emit_all 0 [Obj S1]) (cls_world P0) = (Ok tt, w') ∧
    heap w' !! 0%nat = Some o' ∧
    stmt_stack o' =
      stmt_stack P0 ++
      [[Obj S1] ++
       [Obj (For (Var nm' "int32") (IntImm 0)
               (loop_extent (IntImm 0) (IntImm 5)) SERIAL (KStmtRef 0))]]
    ∧ ("x" ≠ "i" → nm' = "x").
Proof.
  split; [vm_compute; reflexivity|].
  refine (proj1 (proj2 for_exit_does_not_fold) (cls_world P0) [] 0%nat P0
            (IntImm 0) (IntImm 5) "x" "int32" "serial" SERIAL
            (mkWithScope (Var "x" "int32")
               (for_exit_cb 0 (Var "x" "int32") (IntImm 0) (IntImm 5) "serial"))
            (for_ (IntImm 0) (IntImm 5) "x" "int32" "serial" (cls_world P0)).2
            [Obj S1] eq_refl eq_refl eq_refl eq_refl _).
  reflexivity.
Defined.

(** ** [break_] under [for_] and under [while_] *)

Lemma with_exit_raises {B} (body : M B) (exit : M unit) w res w1 e w2 :
  body w = (res, w1) → exit w1 = (Raise e, w2) →
  with_exit body exit w = (Raise e, w2).
Proof. unfold with_exit. intros -> ->. destruct res; reflexivity. Qed.

(** A [with] statement whose exit callback raises has that exception for
    outcome, whatever its body did *)
Lemma with_run_exit_raises {A B} (enter : M (WithScope A)) (body : A → M B)
  w v cb w1 res w2 e w3 :
  enter w = (Ok (mkWithScope v cb), w1) → body v w1 = (res, w2) →
  cb w2 = (Raise e, w3) → with_ enter body w = (Raise e, w3).
Proof.
  intros He Hb Hc. unfold with_. rewrite (bind_ok _ _ _ _ _ He).
  cbn [enter_value exit_cb]. exact (with_exit_raises _ _ _ _ _ _ _ Hb Hc).
Qed.

Lemma break_outside_loop w cur c o :
  _current w = cur ++ [c] → heap w !! c = Some o → for_level o = 0 →
  break_ w = (Raise BreakOutsideLoop, w).
Proof.
  intros Hc Ho Hl. unfold break_.
  rewrite (bind_ok _ _ _ _ _ (get_current_ok _ _ _ Hc)).
  rewrite (bind_ok _ _ _ _ _ (deref_ok _ _ _ Ho)), Hl. reflexivity.
Qed.

(** C5: [break_] raises [BreakOutsideLoop] exactly when the loop depth of
    the current block is 0, but [for_] does not raise that depth:
    whenever it enters, the depth of the block is what it was (the
    attribute it raises is the one of the class).  So on every state in
    which a block of depth 0 is open and [for_] can be entered,
    [with for_(b, e) as i: with if_(cond(i)): break_()] raises
    [BreakOutsideLoop]; what is left in the scope of the loop is a
    conditional with an empty then-branch and the loop node, and no
    conditional break.  Under [while_], which raises the depth of the
    block, the same body builds the loop with the conditional break. *)
Theorem break_in_for_raises :
  (∀ w cur c o,
     _current w = cur ++ [c] → heap w !! c = Some o →
     (outcome (break_ w) = Raise BreakOutsideLoop ↔ for_level o = 0))
  ∧ (∀ w cur c o b e nm dt kind ws w1,
       _current w = cur ++ [c] → heap w !! c = Some o →
       for_ b e nm dt kind w = (Ok ws, w1) →
       ∃ o1, _current w1 = _current w ∧ heap w1 !! c = Some o1 ∧
             for_level o1 = for_level o ∧
             (for_level o = 0 →
              break_ w1 = (Raise BreakOutsideLoop, w1)))
  ∧ (∀ w cur c o b e nm dt kind k ws w1 (cond : expr → expr),
       _current w = cur ++ [c] → heap w !! c = Some o →
       for_level o = 0 → kind_id kind = Ok k →
       for_ b e nm dt kind w = (Ok ws, w1) →
       ∃ nm' w' o',
         with_ (for_ b e nm dt kind)
           (λ i, with_ (if_ (cond i)) (λ _, break_)) w =
           (Raise BreakOutsideLoop, w') ∧
         heap w' !! c = Some o' ∧ for_level o' = 0 ∧
         stmt_stack o' =
           stmt_stack o ++
           [[Obj (IfThenElse (cond (Var nm' dt)) noop None);
             Obj (For (Var nm' dt) b (loop_extent b e) k (KStmtRef c))]])
  ∧ (∀ w cur c o rest top c0 cond,
       _current w = cur ++ [c] → heap w !! c = Some o →
       for_level o ≠ -1 → has_break o = false →
       stmt_stack o = rest ++ [top] →
       ∃ w' o',
         with_ (while_ c0) (λ _, with_ (if_ cond) (λ _, break_)) w =
           (Ok tt, w') ∧
         heap w' !! c = Some o' ∧
         stmt_stack o' =
           rest ++ [top ++ [Obj (While c0 (IfThenElse cond Break None))]]).
Proof.
  split; [exact break_outside_loop_iff|]. split; [|split].
  - intros w cur c o b e nm dt kind ws w1 Hc Ho He.
    destruct (for_entry_inv _ _ _ _ _ _ _ _ _ _ _ Hc Ho He)
      as (nm' & o1 & n & _ & Hh & Hc1 & _ & _ & _ & _ & Hl1 & _).
    assert (Ho1 : heap w1 !! c = Some o1) by (rewrite Hh; apply lookup_insert_eq).
    exists o1. split; [exact Hc1|]. split; [exact Ho1|]. split; [exact Hl1|].
    intros H0. apply (break_outside_loop _ cur c o1); [congruence|exact Ho1|].
    congruence.
  - intros w cur c o b e nm dt kind k ws w1 cond Hc Ho H0 Hk He.
    destruct (for_entry_inv _ _ _ _ _ _ _ _ _ _ _ Hc Ho He)
      as (nm' & o1 & n & -> & Hh & Hc1 & Hn & Hn1 & _ & Hs1 & Hl1 & _).
    assert (Ho1 : heap w1 !! c = Some o1) by (rewrite Hh; apply lookup_insert_eq).
    rewrite Hc in Hc1.
    exists nm'. eexists _, _. split.
    + eapply with_run; [exact He| |].
      * cbn. eapply with_run.
        -- exact (if_entry_run _ _ _ _ _ Hc1 Ho1).
        -- eapply (break_outside_loop _ cur c);
             [exact Hc1|unfold enter_scope; heap_lookup|cbn; congruence].
        -- eapply (if_exit_run _ c _ (stmt_stack o) [] [] noop).
           ++ unfold enter_scope. heap_lookup.
           ++ cbn. rewrite Hs1. reflexivity.
           ++ reflexivity.
      * eapply for_exit_cb_run;
          [exact Hk|cbn; exact Hn1|unfold close_scope; heap_lookup
          |reflexivity|cbn; reflexivity].
    + cbn. rewrite lookup_insert_eq. split; [reflexivity|]. cbn.
      split; [congruence|reflexivity].
  - intros w cur c o rest top c0 cond Hc Ho Hl Hb Hs.
    eexists _, _. split.
    + eapply with_run; [exact (while_entry_run _ _ _ _ c0 Hc Ho)| |].
      * cbn. eapply with_run.
        -- eapply if_entry_run; [exact Hc|unfold enter_loop; heap_lookup].
        -- eapply (break_run _ cur c).
           ++ exact Hc.
           ++ unfold enter_scope, enter_loop. heap_lookup.
           ++ cbn. lia.
           ++ exact Hb.
           ++ cbn. reflexivity.
        -- eapply (if_exit_run _ c _ (rest ++ [top]) [] [Obj Break] Break).
           ++ heap_lookup.
           ++ cbn. rewrite Hs. reflexivity.
           ++ reflexivity.
      * eapply (while_exit_run _ c _ rest top
                  [Obj (IfThenElse cond Break None)]).
        -- unfold close_scope. heap_lookup.
        -- cbn. reflexivity.
        -- reflexivity.
    + unfold close_loop. cbn. rewrite lookup_insert_eq. split; reflexivity.
Qed.

Lemma break_in_for_raises_witness :
  outcome
    (with_ (for_ (IntImm 0) (IntImm 5) "i" "int32" "serial")
       (λ i, with_ (if_ (A_gt_3 i)) (λ _, break_)) (cls_world P_counting)) =
    Raise BreakOutsideLoop
  ∧ ∃ nm' w' o',
      with_ (for_ (IntImm 0) (IntImm 5) "i" "int32" "serial")
        (λ i, with_ (if_ (A_gt_3 i)) (λ _, break_)) (cls_world P_counting) =
        (Raise BreakOutsideLoop, w') ∧
      heap w' !! 0%nat = Some o' ∧ for_level o' = 0 ∧
      stmt_stack o' =
        stmt_stack P_counting ++
        [[Obj (IfThenElse (A_gt_3 (Var nm' "int32")) noop None);
          Obj (For (Var nm' "int32") (IntImm 0)
                 (loop_extent (IntImm 0) (IntImm 5)) SERIAL (KStmtRef 0))]].
Proof.
  split; [vm_compute; reflexivity|].
  refine (proj1 (proj2 (proj2 break_in_for_raises)) (cls_world P_counting) []
            0%nat P_counting (IntImm 0) (IntImm 5) "i" "int32" "serial" SERIAL
            (mkWithScope (Var "i" "int32")
               (for_exit_cb 0 (Var "i" "int32") (IntImm 0) (IntImm 5) "serial"))
            (for_ (IntImm 0) (IntImm 5) "i" "int32" "serial"
               (cls_world P_counting)).2
            A_gt_3 eq_refl eq_refl eq_refl eq_refl _).
  reflexivity.
Defined.

(** ** The break flag *)

(** The exit callbacks of [if_], [else_], [elif_] and [while_] clear the
    break flag of the block, set or not, and emit their node into the
    enclosing scope. *)
Lemma closing_clears c b cb node w o rest top l :
  closing c b cb node →
  heap w !! c = Some o → stmt_stack o = (rest ++ [top]) ++ [l] →
  fold_stmts l = Ok b →
  ∃ w' o',
    cb w = (Ok tt, w') ∧ heap w' !! c = Some o' ∧ has_break o' = false ∧
    stmt_stack o' = rest ++ [top ++ [Obj node]] ∧
    _current w' = _current w.
Proof.
  intros Hcl Ho Hs Hf. destruct Hcl as [cond|c0 t|p cond r Hr|cond].
  - eexists _, _. split; [exact (if_exit_run _ _ _ _ _ _ _ cond Ho Hs Hf)|].
    unfold close_scope. cbn. rewrite lookup_insert_eq. repeat split.
  - eexists _, _. split.
    { apply (else_exit_run _ _ _ _ _ _ _ (IfThenElse c0 t None)
               (IfThenElse c0 t (Some b)) Ho Hs Hf).
      reflexivity. }
    unfold close_scope. cbn. rewrite lookup_insert_eq. repeat split.
  - eexists _, _. split;
      [exact (elif_exit_run _ _ _ _ _ _ _ _ _ _ Ho Hs Hf Hr)|].
    unfold close_scope. cbn. rewrite lookup_insert_eq. repeat split.
  - eexists _, _. split; [exact (while_exit_run _ _ _ _ _ _ _ cond Ho Hs Hf)|].
    unfold close_loop. cbn. rewrite lookup_insert_eq. repeat split.
Qed.

(** C6: a [break_] that returns leaves the break flag of the current
    block set, and while the flag is set every [emit] into the block
    raises [IllegalEmitAfterBreak] and changes nothing.  The exit of
    [if_], [else_], [elif_] and [while_] clears the flag, whether it was
    set or not, so that a scope opened next accepts emissions; this is
    run on [with if_(a): break_()] followed by a sibling
    [with if_(b): s].  The exit of [for_] does not: with the flag set it
    raises, the flag of the block is still set (the one cleared is the
    one of the class), and emissions go on being refused; so
    [with for_(b, e): break_()] in a block of non-zero loop depth raises
    [IllegalEmitAfterBreak] at its exit, and a statement emitted next is
    refused. *)
Theorem break_finality :
  (∀ w w', break_ w = (Ok tt, w') →
     ∃ c o', last (_current w') = Some c ∧ heap w' !! c = Some o' ∧
             has_break o' = true)
  ∧ (∀ w self o e, heap w !! self = Some o → has_break o = true →
       emit self e w = (Raise IllegalEmitAfterBreak, w))
  ∧ (∀ c b cb node w o rest top l,
       closing c b cb node →
       heap w !! c = Some o →
       stmt_stack o = (rest ++ [top]) ++ [l] → fold_stmts l = Ok b →
       ∃ w' o',
         cb w = (Ok tt, w') ∧ heap w' !! c = Some o' ∧
         has_break o' = false ∧
         stmt_stack o' = rest ++ [top ++ [Obj node]] ∧
         ∀ e, ∃ w'', bind (push_scope c) (λ _, emit c e) w' = (Ok tt, w''))
  ∧ (∀ w cur c o rest top a b s,
       _current w = cur ++ [c] → heap w !! c = Some o →
       for_level o ≠ 0 → has_break o = false →
       stmt_stack o = rest ++ [top] →
       ∃ w' o',
         break_then_sibling a b s w = (Ok tt, w') ∧
         heap w' !! c = Some o' ∧ has_break o' = false ∧
         stmt_stack o' =
           rest ++ [top ++ [Obj (IfThenElse a Break None);
                            Obj (IfThenElse b s None)]])
  ∧ (∀ w c o lv b e kind k n,
       kind_id kind = Ok k → cls_for_level w = Some n →
       heap w !! c = Some o → has_break o = true →
       ∃ w' o',
         for_exit_cb c lv b e kind w = (Raise IllegalEmitAfterBreak, w') ∧
         heap w' !! c = Some o' ∧ has_break o' = true ∧
         cls_has_break w' = Some false ∧
         ∀ x, emit c x w' = (Raise IllegalEmitAfterBreak, w'))
  ∧ (∀ w cur c o b e nm dt kind k ws w1 s,
       _current w = cur ++ [c] → heap w !! c = Some o →
       for_level o ≠ 0 → has_break o = false → kind_id kind = Ok k →
       for_ b e nm dt kind w = (Ok ws, w1) →
       ∃ w' o',
         with_ (for_ b e nm dt kind) (λ _, break_) w =
           (Raise IllegalEmitAfterBreak, w') ∧
         heap w' !! c = Some o' ∧ has_break o' = true ∧
         emit_stmt s w' = (Raise IllegalEmitAfterBreak, w')).
Proof.
  split; [exact break_inv|].
  split; [intros w self o e; apply emit_broken|].
  split; [|split; [intros; eapply break_then_sibling_ok; eassumption|split]].
  - intros c b cb node w o rest top l Hcl Ho Hs Hf.
    destruct (closing_clears _ _ _ _ _ _ _ _ _ Hcl Ho Hs Hf)
      as (w' & o' & E & Ho' & Hb' & Hs' & _).
    exists w', o'. repeat (split; [assumption|]).
    intros e. eexists.
    rewrite (bind_ok _ _ _ _ _ (push_scope_ok _ _ _ Ho')).
    eapply emit_ok; [heap_lookup|exact Hb'|reflexivity].
  - intros w c o lv b e kind k n Hk Hn Ho Hb.
    eexists _, o. split; [exact (for_exit_cb_after_break _ _ _ lv b e _ _ _
                                   Hk Hn Ho Hb)|].
    split; [exact Ho|]. split; [exact Hb|]. split; [reflexivity|].
    intros x. apply (emit_broken _ _ o); [exact Ho|exact Hb].
  - intros w cur c o b e nm dt kind k ws w1 s Hc Ho Hl Hb Hk He.
    destruct (for_entry_inv _ _ _ _ _ _ _ _ _ _ _ Hc Ho He)
      as (nm' & o1 & n & -> & Hh & Hc1 & Hn & Hn1 & _ & Hs1 & Hl1 & Hb1 & _).
    assert (Ho1 : heap w1 !! c = Some o1) by (rewrite Hh; apply lookup_insert_eq).
    rewrite Hc in Hc1.
    eexists _, _. split; [|split; [|split]].
    + eapply with_run_exit_raises; [exact He| |].
      * cbn. eapply (break_run _ cur c o1);
          [exact Hc1|exact Ho1|congruence|congruence|exact Hs1].
      * eapply for_exit_cb_after_break;
          [exact Hk|cbn; exact Hn1|heap_lookup|reflexivity].
    + cbn. apply lookup_insert_eq.
    + reflexivity.
    + unfold emit_stmt.
      erewrite bind_ok; [|eapply get_current_ok; cbn; exact Hc1].
      eapply emit_broken; [cbn; apply lookup_insert_eq|reflexivity].
Qed.

Lemma break_finality_witness :
  emit 0 (Obj S1) (world_of (block_with [[Obj Break]] true 1)) =
    (Raise IllegalEmitAfterBreak, world_of (block_with [[Obj Break]] true 1))
  ∧ has_break (block_with [[]; [Obj Break]] true 1) = true
  ∧ (∃ w' o',
       if_exit_cb 0 c1 (world_of (block_with [[]; [Obj Break]] true 1)) =
         (Ok tt, w') ∧
       heap w' !! 0%nat = Some o' ∧ has_break o' = false ∧
       stmt_stack o' = [] ++ [[] ++ [Obj (IfThenElse c1 Break None)]] ∧
       ∀ e, ∃ w'', bind (push_scope 0) (λ _, emit 0 e) w' = (Ok tt, w''))
  ∧ (∃ w' o',
       break_then_sibling c1 c2 S1 (world_of (block_with [[]] false 1)) =
         (Ok tt, w') ∧
       heap w' !! 0%nat = Some o' ∧ has_break o' = false ∧
       stmt_stack o' =
         [] ++ [[] ++ [Obj (IfThenElse c1 Break None);
                       Obj (IfThenElse c2 S1 None)]])
  ∧ ∃ w' o',
      with_ (for_ (IntImm 0) (IntImm 5) "x" "int32" "serial") (λ _, break_)
        (cls_world (block_with [[]] false 1)) =
        (Raise IllegalEmitAfterBreak, w') ∧
      heap w' !! 0%nat = Some o' ∧ has_break o' = true ∧
      emit_stmt S1 w' = (Raise IllegalEmitAfterBreak, w').
Proof.
  split; [|split; [reflexivity|split; [|split]]].
  - exact (proj1 (proj2 break_finality)
             (world_of (block_with [[Obj Break]] true 1)) 0%nat
             (block_with [[Obj Break]] true 1) (Obj S1) eq_refl eq_refl).
  - exact (proj1 (proj2 (proj2 break_finality)) 0%nat Break _ _
             (world_of (block_with [[]; [Obj Break]] true 1))
             (block_with [[]; [Obj Break]] true 1) [] [] [Obj Break]
             (closing_if 0 Break c1) eq_refl eq_refl eq_refl).
  - exact (proj1 (proj2 (proj2 (proj2 break_finality)))
             (world_of (block_with [[]] false 1)) [] 0%nat
             (block_with [[]] false 1) [] [] c1 c2 S1
             eq_refl eq_refl ltac:(discriminate) eq_refl eq_refl).
  - refine (proj2 (proj2 (proj2 (proj2 (proj2 break_finality))))
              (cls_world (block_with [[]] false 1)) [] 0%nat
              (block_with [[]] false 1) (IntImm 0) (IntImm 5) "x" "int32"
              "serial" SERIAL
              (mkWithScope (Var "x" "int32")
                 (for_exit_cb 0 (Var "x" "int32") (IntImm 0) (IntImm 5)
                    "serial"))
              (for_ (IntImm 0) (IntImm 5) "x" "int32" "serial"
                 (cls_world (block_with [[]] false 1))).2
              S1 eq_refl eq_refl ltac:(discriminate) eq_refl eq_refl _).
    reflexivity.
Defined.

(** ** The counter of the default loop names *)

Lemma getattr_unresolved w self o a :
  heap w !! self = Some o → unresolved w o a →
  ∃ msg, KStmt__getattr__ self a w = (Raise (ValueError msg), w).
Proof.
  intros Ho (Hv & Hl & Hin). unfold KStmt__getattr__.
  rewrite (bind_ok _ _ _ _ _ (deref_ok _ _ _ Ho)), Hv.
  rewrite bool_decide_eq_false_2 by exact Hl.
  rewrite (proj2 (find_none_iff _ _)).
  2: { intros k Hk. apply elem_of_elements in Hk.
       destruct (heap w !! k) as [ko|] eqn:Hko; [|reflexivity].
       apply bool_decide_eq_false. exact (proj1 (Hin k ko Hk Hko)). }
  rewrite (proj2 (find_none_iff _ _)).
  2: { intros k Hk. apply elem_of_elements in Hk.
       destruct (heap w !! k) as [ko|] eqn:Hko; [|reflexivity].
       apply bool_decide_eq_false. exact (proj2 (Hin k ko Hk Hko)). }
  eauto.
Qed.

Lemma update_keeps_at {X} (f : KStmtObj → X) r g w x w' :
  update r g w = (x, w') →
  (∀ o, heap w !! r = Some o → f (g o) = f o) →
  _current w' = _current w ∧ keeps f w w'.
Proof.
  intros E Hg. unfold update, bind, deref in E.
  destruct (heap w !! r) as [o|] eqn:Ho; injection E as <- <-.
  - split; [reflexivity|]. intros c oc Hc. cbn.
    destruct (decide (c = r)) as [->|Hne].
    + rewrite lookup_insert_eq. rewrite Ho in Hc. injection Hc as <-.
      exists (g o). split; [reflexivity|]. apply Hg. reflexivity.
    + rewrite lookup_insert_ne by congruence. eauto.
  - split; [reflexivity|]. apply keeps_refl.
Qed.

(** [for_] gives no counter to a block that has none: it advances the
    counter only after having read it. *)
Lemma Frames_for_lacks cur b e nm dt kind :
  Frames cur lacks_nidx (for_ b e nm dt kind).
Proof.
  unfold for_. apply Frames_bind; [apply Frames_get_current|intros c].
  apply Frames_bind.
  2: { intros nm'.
       apply Frames_bind; [apply Frames_push_scope; reflexivity|intros _].
       apply Frames_bind; [apply Frames_cls_for_level_incr|intros _].
       apply Frames_ret. }
  destruct (String.eqb nm "i"); [|apply Frames_ret].
  intros w r w' E. unfold bind in E at 1.
  destruct (get_nidx c w) as [[n|x] wa] eqn:G.
  2: { injection E as <- <-. exact (Frames_get_nidx cur lacks_nidx c _ _ _ G). }
  apply get_nidx_inv in G as (o & Ho & Hn & ->).
  unfold bind in E at 1.
  destruct (loop_name n w) as [[y|x] wb] eqn:L.
  2: { injection E as <- <-. exact (Frames_loop_name cur lacks_nidx n _ _ _ L). }
  apply loop_name_inv in L as ->.
  unfold bind in E at 1.
  destruct (get_nidx c w) as [[n'|x] wc] eqn:G.
  2: { injection E as <- <-. exact (Frames_get_nidx cur lacks_nidx c _ _ _ G). }
  apply get_nidx_inv in G as (o' & Ho' & Hn' & ->).
  unfold bind in E.
  destruct (update c (set_nidx (Some (n' + 1))) w) as [[u|x] wd] eqn:U;
    injection E as <- <-;
    (destruct (update_keeps_at lacks_nidx _ _ _ _ _ U) as [C K];
     [intros o2 Ho2; rewrite Ho in Ho2; injection Ho2 as <-;
      unfold lacks_nidx; cbn; rewrite Hn; reflexivity
     |split; [intros _; exact C|exact K]]).
Qed.

(** No body written with the constructs gives a block the attribute
    [nidx], or takes it away. *)
Lemma run_lacks p : Frames false lacks_nidx (run p).
Proof.
  induction p as [x|v| |a IHa b IHb|c body IH|body IH|c body IH|c body IH
                 |b e nm dt kind body IH|r body IH]; cbn [run].
  - apply Frames_emit_stmt. reflexivity.
  - apply Frames_return_; reflexivity.
  - apply Frames_break_; reflexivity.
  - apply Frames_bind; [exact IHa|intros _; exact IHb].
  - apply Frames_with; [apply Frames_if_|apply ExitFrames_if_|intros _; exact IH];
      reflexivity.
  - apply Frames_with;
      [apply Frames_else_|apply ExitFrames_else_|intros _; exact IH];
      reflexivity.
  - apply Frames_with;
      [apply Frames_elif_|apply ExitFrames_elif_|intros _; exact IH];
      reflexivity.
  - apply Frames_with;
      [apply Frames_while_|apply ExitFrames_while_|intros _; exact IH];
      reflexivity.
  - apply Frames_with;
      [apply Frames_for_lacks|apply ExitFrames_for_; reflexivity
      |intros _; exact IH].
  - apply Frames_with_KStmt; try reflexivity. exact IH.
Qed.

(** C8: no loop is named in a block that has no attribute [nidx].  On
    every state in which such a block is open and nothing else answers
    to the name [nidx], [for_] with the default name raises the
    [ValueError] of [__getattr__] and changes nothing; and no body
    written with the constructs creates the attribute: a block without
    it is still without it after any trace, whatever its outcome.  The
    counter that exists in the source is [for_ID], which [for_] does not
    read.  Where a counter [nidx] has been set to 0 by hand, four loops
    are named [i], [j], [k] and [i_0]. *)
Theorem unnamed_loop_raises :
  (∀ w cur c o b e dt kind,
     _current w = cur ++ [c] → heap w !! c = Some o →
     nidx o = None → unresolved w o "nidx" →
     ∃ msg, for_ b e "i" dt kind w = (Raise (ValueError msg), w))
  ∧ (∀ p w r w' c o,
       run p w = (r, w') → heap w !! c = Some o → nidx o = None →
       ∃ o', heap w' !! c = Some o' ∧ nidx o' = None)
  ∧ stack_of_P (four_loops (cls_world P_counting)) =
      Some [[];
            [Obj (For (Var "i" "int32") (IntImm 0) (IntImm 5) SERIAL
                    (KStmtRef 0))];
            [Obj (For (Var "j" "int32") (IntImm 0) (IntImm 5) SERIAL
                    (KStmtRef 0))];
            [Obj (For (Var "k" "int32") (IntImm 0) (IntImm 5) SERIAL
                    (KStmtRef 0))];
            [Obj (For (Var "i_0" "int32") (IntImm 2) (IntImm 5) SERIAL
                    (KStmtRef 0))]].
Proof.
  split; [|split; [|vm_compute; reflexivity]].
  - intros w cur c o b e dt kind Hc Ho Hn Hu.
    destruct (getattr_unresolved _ _ _ _ Ho Hu) as [msg E].
    exists msg. unfold for_.
    rewrite (bind_ok _ _ _ _ _ (get_current_ok _ _ _ Hc)).
    rewrite String.eqb_refl.
    apply bind_raise, bind_raise. unfold get_nidx.
    rewrite (bind_ok _ _ _ _ _ (deref_ok _ _ _ Ho)), Hn.
    apply bind_raise, E.
  - intros p w r w' c o E Ho Hn.
    destruct (run_lacks p _ _ _ E) as [_ K].
    destruct (K c o Ho) as (o' & Ho' & F). exists o'. split; [exact Ho'|].
    unfold lacks_nidx in F. rewrite Hn in F.
    destruct (nidx o'); [discriminate|reflexivity].
Qed.

Lemma unnamed_loop_raises_witness :
  (∃ msg, for_ (IntImm 0) (IntImm 5) "i" "int32" "serial" (cls_world P0) =
          (Raise (ValueError msg), cls_world P0))
  ∧ outcome (for_ (IntImm 0) (IntImm 5) "i" "int32" "serial" (cls_world P0)) =
      Raise (ValueError "Member nidx not found in set() or set()")
  ∧ ∃ o', heap (run (WithWhile c1 (Emit S1)) (cls_world P0)).2 !! 0%nat =
            Some o' ∧ nidx o' = None.
Proof.
  split; [|split; [vm_compute; reflexivity|]].
  - refine (proj1 unnamed_loop_raises (cls_world P0) [] 0%nat P0 (IntImm 0)
              (IntImm 5) "int32" "serial" eq_refl eq_refl eq_refl _).
    split; [reflexivity|split].
    + apply not_elem_of_empty.
    + intros k ko Hk. exfalso. exact (not_elem_of_empty k Hk).
  - exact (proj1 (proj2 unnamed_loop_raises) (WithWhile c1 (Emit S1))
             (cls_world P0) _ _ 0%nat P0
             (surjective_pairing _) eq_refl eq_refl).
Defined.

(** ** The return-void flag of a function definition *)




(** ** The constructor, and [def_] *)



